(** * Wallpaper store: progressive loading and caching pipeline

    A shallow embedding of [src/stores/wallpaper.js] (the Pinia store
    [useWallpaperStore]) and of the URL handling of
    [src/composables/useWallpapers.js].

    The store is a bundle of reactive cells mutated by [async] functions.
    It is modelled as a record [Store] threaded through a state-and-exception
    monad [M]: [await] is sequencing, [throw] is the exceptional result,
    [try]/[catch]/[finally] are combinators.  The collaborators that are
    imported from modules outside the store ([SERIES_CONFIG],
    [buildImageUrl], [decodeData], the worker, [fetch]) are section
    variables.  The index cache and the configuration table are plain
    objects: they are finite maps, read through [js_get], which also finds
    the names that every object inherits.  A fetched document is read at
    the properties the store looks at; its [wallpapers] property is kept as
    JSON has it, array or not. *)

From Stdlib Require Import Ascii.
From stdpp Require Import gmap strings list pretty.

Set Default Proof Using "Type".
Open Scope string_scope.
Open Scope list_scope.
Open Scope Z_scope.

(** ** JavaScript values *)

(** The scalar values a JSON document can hold in a field, plus
    [undefined], which is what reading an absent property yields. *)
Inductive jsval : Type :=
  | JUndefined
  | JNull
  | JBool (b : bool)
  | JNum (n : Z)
  | JStr (s : string).

#[global] Instance jsval_eq_dec : EqDecision jsval.
Proof. solve_decision. Defined.

(** [ToBoolean]: what [v ? a : b] and [v || d] test. *)
Definition truthy (v : jsval) : bool :=
  match v with
  | JUndefined | JNull => false
  | JBool b => b
  | JNum n => negb (n =? 0)
  | JStr s => negb (String.eqb s "")
  end.

(** [a || b] *)
Definition js_or (a b : jsval) : jsval := if truthy a then a else b.

(** [a === b] on scalars. *)
Definition strict_eq (a b : jsval) : bool := bool_decide (a = b).

Definition is_string (v : jsval) : Prop := exists s, v = JStr s.

(** A wallpaper record is a flat JS object: a finite map from property
    names to values.  [prop w k] is the property read [w.k]. *)
Abbreviation Item := (gmap string jsval).

Definition prop (w : Item) (k : string) : jsval := default JUndefined (w !! k).

(** ** Plain objects used as maps *)

(** The index cache and [SERIES_CONFIG] are plain objects read with
    [obj[k]].  Such a read finds the own property [k] or, when there is
    none, the property that [Object.prototype] has under that name.  These
    are the names [Object.prototype] has. *)
Definition inherited_names : list string :=
  ["constructor"; "hasOwnProperty"; "isPrototypeOf"; "propertyIsEnumerable";
   "toLocaleString"; "toString"; "valueOf"; "__defineGetter__"; "__defineSetter__";
   "__lookupGetter__"; "__lookupSetter__"; "__proto__"].

Definition inherited (k : string) : bool := bool_decide (k ∈ inherited_names).

(** [obj[k]].  The own properties of [obj] are the entries of the map;
    [proto] stands for what an inherited name reads as (a function, or
    [Object.prototype] itself), which is truthy.  [None] is [undefined]. *)
Definition js_get {A} (proto : A) (obj : gmap string A) (k : string) : option A :=
  match obj !! k with
  | Some v => Some v
  | None => if inherited k then Some proto else None
  end.

(** One entry of a series manifest, [{ file, label?, count? }]. *)
Record CategoryDescriptor : Type := mkCategory {
  file : string;
  label : jsval;
  count : jsval;
}.

(** The [wallpapers] property of a JSON object: a scalar ([undefined] when
    the property is absent), an array, or an object that is not an array.
    An element of the array is [null], given as [None], or a value whose
    properties can be read and spread, given as the object it reads and
    spreads as (a number or a boolean as the empty object, a string as the
    object of its characters). *)
Inductive Wallpapers : Type :=
  | WScalar (v : jsval)
  | WArray (elements : list (option Item))
  | WObject.

(** A fetched JSON object, read at the properties the store looks at.  The
    same shape serves the series index document, the category document and
    the [indexData] object that [loadSeriesIndex] caches. *)
Record Document : Type := mkDocument {
  generatedAt : jsval;
  series : jsval;
  seriesName : jsval;
  total : jsval;
  categoryCount : jsval;
  categories : option (list CategoryDescriptor);
  schema : jsval;
  env : jsval;
  blob : jsval;
  payload : jsval;
  json_wallpapers : Wallpapers;
}.

(** What [JSON.parse] gives for a decoded category payload: a scalar, a
    bare array of wallpapers, or an object that may carry a [wallpapers]
    array. *)
Inductive Decoded : Type :=
  | DecodedScalar (v : jsval)
  | DecodedList (elements : list (option Item))
  | DecodedObject (d : Document).

(** The value of the variable [wallpaperList] of [loadCategory]: an array,
    or a value that has no method [map]. *)
Inductive WallpaperList : Type :=
  | AnArray (elements : list (option Item))
  | NotAnArray.

(** An object none of whose properties the store reads is there: what the
    read of an inherited name of the index cache gives. *)
Definition no_properties : Document :=
  {| generatedAt := JUndefined; series := JUndefined; seriesName := JUndefined;
     total := JUndefined; categoryCount := JUndefined; categories := None;
     schema := JUndefined; env := JUndefined; blob := JUndefined;
     payload := JUndefined; json_wallpapers := WScalar JUndefined |}.

(** ** Errors and the console *)

Inductive JsError : Type :=
  | Error (message : string)
  | TypeError (message : string)
  | SyntaxError (message : string).

Definition message (e : JsError) : string :=
  match e with
  | Error m | TypeError m | SyntaxError m => m
  end.

Inductive LogLevel : Type := LogWarn | LogError.

Record LogEntry : Type := mkLog {
  level : LogLevel;
  text : string;
  cause : JsError;
}.

(** ** The network *)

Record Response : Type := mkResponse {
  ok : bool;
  status : Z;
  (** [response.json()]; [inl e] when the body is not JSON *)
  json : JsError + Document;
}.

(** [fetch(url)] either rejects or resolves to a response. *)
Definition FetchResult : Type := JsError + Response.

(** ** Static configuration *)

Record SeriesConfig : Type := mkSeriesConfig {
  indexUrl : string;
  categoryBaseUrl : string;
  dataUrl : string;
}.

(** What the read of an inherited name of [SERIES_CONFIG] gives: its three
    URLs are [undefined], which the template literal of [loadCategory] and
    [fetch] turn into the text [undefined]. *)
Definition no_config : SeriesConfig :=
  {| indexUrl := "undefined"; categoryBaseUrl := "undefined"; dataUrl := "undefined" |}.

(** ** Store state *)

Record Store : Type := mkStore {
  seriesIndexCache : gmap string Document;
  categoryCache : gmap string (list Item);
  wallpapers : list Item;
  currentLoadedSeries : string;
  loadedCategories : gset string;
  loading : bool;
  error : option string;
  isBackgroundLoading : bool;
  initialLoadedCount : nat;
  (** calls of [loadRemainingCategories] started and not awaited *)
  background : list (string * list CategoryDescriptor);
  (** instrumentation: requests issued, payloads decoded, console output *)
  fetchLog : list string;
  decodeLog : list jsval;
  console : list LogEntry;
}.

Definition initial_store : Store :=
  {| seriesIndexCache := ∅; categoryCache := ∅; wallpapers := [];
     currentLoadedSeries := ""; loadedCategories := ∅; loading := false;
     error := None; isBackgroundLoading := false; initialLoadedCount := 0%nat;
     background := []; fetchLog := []; decodeLog := []; console := [] |}.

(** ** The monad of store actions *)

Inductive Result (A : Type) : Type :=
  | Ok (a : A)
  | Throw (e : JsError).
Arguments Ok {A} a.
Arguments Throw {A} e.

Definition M (A : Type) : Type := Store -> Result A * Store.

#[global] Instance M_ret : MRet M := fun A a st => (Ok a, st).

#[global] Instance M_bind : MBind M := fun A B f m st =>
  match m st with
  | (Ok a, st') => f a st'
  | (Throw e, st') => (Throw e, st')
  end.

Definition throw {A} (e : JsError) : M A := fun st => (Throw e, st).

Definition try_catch {A} (body : M A) (handler : JsError -> M A) : M A :=
  fun st =>
    match body st with
    | (Ok a, st') => (Ok a, st')
    | (Throw e, st') => handler e st'
    end.

Definition try_finally {A} (body : M A) (final : M unit) : M A :=
  fun st =>
    match body st with
    | (r, st') =>
        match final st' with
        | (Ok _, st'') => (r, st'')
        | (Throw e, st'') => (Throw e, st'')
        end
    end.

Definition gets {A} (f : Store -> A) : M A := fun st => (Ok (f st), st).
Definition modify (f : Store -> Store) : M unit := fun st => (Ok tt, f st).

(** [Promise.all(xs.map(f))]: every call is started, in order, and runs to
    its end whatever the others do; the combined promise rejects with the
    first rejection and otherwise resolves to the results in order. *)
Fixpoint promise_all {A B} (f : A -> M B) (xs : list A) : M (list B) :=
  match xs with
  | [] => mret []
  | x :: xs' => fun st =>
      match f x st with
      | (Ok b, st1) =>
          match promise_all f xs' st1 with
          | (Ok bs, st2) => (Ok (b :: bs), st2)
          | (Throw e, st2) => (Throw e, st2)
          end
      | (Throw e, st1) => (Throw e, snd (promise_all f xs' st1))
      end
  end.

(** Functional updates of the reactive cells. *)
Definition set_seriesIndexCache (f : gmap string Document -> gmap string Document)
    (st : Store) : Store :=
  mkStore (f (seriesIndexCache st)) (categoryCache st) (wallpapers st)
    (currentLoadedSeries st) (loadedCategories st) (loading st) (error st)
    (isBackgroundLoading st) (initialLoadedCount st) (background st)
    (fetchLog st) (decodeLog st) (console st).

Definition set_categoryCache
    (f : gmap string (list Item) -> gmap string (list Item)) (st : Store) : Store :=
  mkStore (seriesIndexCache st) (f (categoryCache st)) (wallpapers st)
    (currentLoadedSeries st) (loadedCategories st) (loading st) (error st)
    (isBackgroundLoading st) (initialLoadedCount st) (background st)
    (fetchLog st) (decodeLog st) (console st).

Definition set_wallpapers (f : list Item -> list Item) (st : Store) : Store :=
  mkStore (seriesIndexCache st) (categoryCache st) (f (wallpapers st))
    (currentLoadedSeries st) (loadedCategories st) (loading st) (error st)
    (isBackgroundLoading st) (initialLoadedCount st) (background st)
    (fetchLog st) (decodeLog st) (console st).

Definition set_currentLoadedSeries (v : string) (st : Store) : Store :=
  mkStore (seriesIndexCache st) (categoryCache st) (wallpapers st)
    v (loadedCategories st) (loading st) (error st)
    (isBackgroundLoading st) (initialLoadedCount st) (background st)
    (fetchLog st) (decodeLog st) (console st).

Definition set_loadedCategories (f : gset string -> gset string) (st : Store) : Store :=
  mkStore (seriesIndexCache st) (categoryCache st) (wallpapers st)
    (currentLoadedSeries st) (f (loadedCategories st)) (loading st) (error st)
    (isBackgroundLoading st) (initialLoadedCount st) (background st)
    (fetchLog st) (decodeLog st) (console st).

Definition set_loading (v : bool) (st : Store) : Store :=
  mkStore (seriesIndexCache st) (categoryCache st) (wallpapers st)
    (currentLoadedSeries st) (loadedCategories st) v (error st)
    (isBackgroundLoading st) (initialLoadedCount st) (background st)
    (fetchLog st) (decodeLog st) (console st).

Definition set_error (v : option string) (st : Store) : Store :=
  mkStore (seriesIndexCache st) (categoryCache st) (wallpapers st)
    (currentLoadedSeries st) (loadedCategories st) (loading st) v
    (isBackgroundLoading st) (initialLoadedCount st) (background st)
    (fetchLog st) (decodeLog st) (console st).

Definition set_isBackgroundLoading (v : bool) (st : Store) : Store :=
  mkStore (seriesIndexCache st) (categoryCache st) (wallpapers st)
    (currentLoadedSeries st) (loadedCategories st) (loading st) (error st)
    v (initialLoadedCount st) (background st)
    (fetchLog st) (decodeLog st) (console st).

Definition set_initialLoadedCount (v : nat) (st : Store) : Store :=
  mkStore (seriesIndexCache st) (categoryCache st) (wallpapers st)
    (currentLoadedSeries st) (loadedCategories st) (loading st) (error st)
    (isBackgroundLoading st) v (background st)
    (fetchLog st) (decodeLog st) (console st).

Definition set_background
    (f : list (string * list CategoryDescriptor) -> list (string * list CategoryDescriptor))
    (st : Store) : Store :=
  mkStore (seriesIndexCache st) (categoryCache st) (wallpapers st)
    (currentLoadedSeries st) (loadedCategories st) (loading st) (error st)
    (isBackgroundLoading st) (initialLoadedCount st) (f (background st))
    (fetchLog st) (decodeLog st) (console st).

Definition log_fetch (url : string) (st : Store) : Store :=
  mkStore (seriesIndexCache st) (categoryCache st) (wallpapers st)
    (currentLoadedSeries st) (loadedCategories st) (loading st) (error st)
    (isBackgroundLoading st) (initialLoadedCount st) (background st)
    (fetchLog st ++ [url]) (decodeLog st) (console st).

Definition log_decode (encoded : jsval) (st : Store) : Store :=
  mkStore (seriesIndexCache st) (categoryCache st) (wallpapers st)
    (currentLoadedSeries st) (loadedCategories st) (loading st) (error st)
    (isBackgroundLoading st) (initialLoadedCount st) (background st)
    (fetchLog st) (decodeLog st ++ [encoded]) (console st).

Definition log_console (entry : LogEntry) (st : Store) : Store :=
  mkStore (seriesIndexCache st) (categoryCache st) (wallpapers st)
    (currentLoadedSeries st) (loadedCategories st) (loading st) (error st)
    (isBackgroundLoading st) (initialLoadedCount st) (background st)
    (fetchLog st) (decodeLog st) (console st ++ [entry]).

Definition console_warn (msg : string) (e : JsError) : M unit :=
  modify (log_console (mkLog LogWarn msg e)).

Definition console_error (msg : string) (e : JsError) : M unit :=
  modify (log_console (mkLog LogError msg e)).

(** Lift a synchronous call that may throw. *)
Definition lift {A} (r : JsError + A) : M A :=
  match r with
  | inl e => throw e
  | inr a => mret a
  end.

(** [encoded.length > n]; the [length] of a non-string is [undefined], and
    [undefined > n] is [false]. *)
Definition length_gt (encoded : jsval) (n : nat) : bool :=
  match encoded with
  | JStr s => (n <? String.length s)%nat
  | _ => false
  end.

(** [`${seriesId}:${categoryFile}`] *)
Definition cacheKey (seriesId categoryFile : string) : string :=
  seriesId +:+ ":" +:+ categoryFile.

(** [data.wallpapers || data] for an object [data]: the property when it
    is truthy (an array is), the object itself otherwise. *)
Definition wallpapers_or_object (data : Document) : WallpaperList :=
  match json_wallpapers data with
  | WArray elements => AnArray elements
  | WScalar _ | WObject => NotAnArray
  end.

(** [decoded.wallpapers || decoded]: reading a property of [null] throws;
    an array has no property [wallpapers]. *)
Definition wallpapers_or_self (decoded : Decoded) : JsError + WallpaperList :=
  match decoded with
  | DecodedScalar JNull | DecodedScalar JUndefined =>
      inl (TypeError "Cannot read properties of null (reading 'wallpapers')")
  | DecodedScalar _ => inr NotAnArray
  | DecodedList elements => inr (AnArray elements)
  | DecodedObject d => inr (wallpapers_or_object d)
  end.

(** [data.wallpapers || []] *)
Definition wallpapers_or_empty (data : Document) : WallpaperList :=
  match json_wallpapers data with
  | WArray elements => AnArray elements
  | WScalar v => if truthy v then NotAnArray else AnArray []
  | WObject => NotAnArray
  end.

(** [wallpaperList.map(w => f(w))] with [f] reading [w.path]: only an
    array has [map], and reading a property of a [null] element throws. *)
Definition js_map (f : Item -> Item) (wallpaperList : WallpaperList) : M (list Item) :=
  match wallpaperList with
  | AnArray elements =>
      match mapM id elements with
      | Some ws => mret (f <$> ws)
      | None => throw (TypeError "Cannot read properties of null (reading 'path')")
      end
  | NotAnArray => throw (TypeError "wallpaperList.map is not a function")
  end.

(** [arr.slice(a, b)] for [0 <= a <= b]. *)
Definition slice {A} (l : list A) (a b : nat) : list A := take (b - a) (drop a l).

Definition BATCH_SIZE : nat := 3.

(** The loop [for (let i = 0; i < categories.length; i += BATCH_SIZE)
    batches.push(categories.slice(i, i + BATCH_SIZE))].  The index grows by
    [BATCH_SIZE] at every turn, so [length categories] turns are enough. *)
Fixpoint batches_from {A} (fuel : nat) (categories : list A) (i : nat) : list (list A) :=
  match fuel with
  | O => []
  | S fuel' =>
      if (i <? length categories)%nat
      then slice categories i (i + BATCH_SIZE) :: batches_from fuel' categories (i + BATCH_SIZE)
      else []
  end.

Definition make_batches {A} (categories : list A) : list (list A) :=
  batches_from (length categories) categories 0.

(** [for (const x of xs) body(x)] *)
Fixpoint for_of {A} (body : A -> M unit) (xs : list A) : M unit :=
  match xs with
  | [] => mret tt
  | x :: xs' => _ ← body x; for_of body xs'
  end.

(** [cats.forEach(cat => loadedCategories.add(cat.file))] *)
Definition add_files (cats : list CategoryDescriptor) (loaded : gset string) : gset string :=
  foldl (fun acc cat => acc ∪ {[file cat]}) loaded cats.

(** [batch.filter(cat => !loadedCategories.has(cat.file))] *)
Definition unloaded (loaded : gset string) (cats : list CategoryDescriptor)
    : list CategoryDescriptor :=
  filter (fun cat => file cat ∉ loaded) cats.

(** Reading [indexData.categories] to call an array method on it: a
    [TypeError] when the property is absent. *)
Definition categories_of (indexData : Document) : M (list CategoryDescriptor) :=
  match categories indexData with
  | Some cats => mret cats
  | None => throw (TypeError "Cannot read properties of undefined")
  end.

(** [await new Promise(resolve => setTimeout(resolve, ms))] *)
Definition sleep (ms : Z) : M unit := mret tt.

(** [arr.findIndex(p)] *)
Fixpoint findIndex_from {A} (p : A -> bool) (l : list A) (i : Z) : Z :=
  match l with
  | [] => -1
  | x :: l' => if p x then i else findIndex_from p l' (i + 1)
  end.

Definition findIndex {A} (p : A -> bool) (l : list A) : Z := findIndex_from p l 0.

(** The value of an expression that is a wallpaper, [null] or [undefined]. *)
Inductive ItemRef : Type :=
  | RItem (w : Item)
  | RNull
  | RUndefined.

(** [arr[i]] *)
Definition index_at (l : list Item) (i : Z) : ItemRef :=
  if i <? 0 then RUndefined
  else match l !! Z.to_nat i with
       | Some w => RItem w
       | None => RUndefined
       end.

Section Store.

(** The imported collaborators. *)
Variable SERIES_CONFIG : gmap string SeriesConfig.
Variable buildImageUrl : jsval -> jsval.
Variable fetch : string -> FetchResult.
Variable isWorkerAvailable : bool.
Variable decodeData : jsval -> JsError + string.
(** [JSON.parse] and the worker's decode-and-parse, read at the shape of
    a manifest category list and at the shape of a category payload. *)
Variable parseCategories : string -> JsError + list CategoryDescriptor.
Variable workerCategories : jsval -> JsError + list CategoryDescriptor.
Variable parsePayload : string -> JsError + Decoded.
Variable workerPayload : jsval -> JsError + Decoded.

Definition js_fetch (url : string) : M Response :=
  _ ← modify (log_fetch url); lift (fetch url).

(** [decodeDataWithWorker]: the worker when there is one and the payload
    is longer than 1000, the calling thread otherwise or when the worker
    fails. *)
Definition decodeDataWithWorker {A} (workerDecodeAndParse : jsval -> JsError + A)
    (JSON_parse : string -> JsError + A) (encoded : jsval) : M A :=
  _ ← modify (log_decode encoded);
  let main_thread : M A :=
    jsonStr ← lift (decodeData encoded); lift (JSON_parse jsonStr) in
  if isWorkerAvailable && length_gt encoded 1000 then
    try_catch (lift (workerDecodeAndParse encoded))
      (fun e =>
         _ ← console_warn "Worker decode failed, fallback to main thread:" e;
         main_thread)
  else main_thread.

(** [transformWallpaperUrls] of the store. *)
Definition transformWallpaperUrls (wallpaper : Item) : Item :=
  let url :=
    if truthy (prop wallpaper "path") then buildImageUrl (prop wallpaper "path")
    else js_or (prop wallpaper "url") (JStr "") in
  let thumbnailUrl :=
    if truthy (prop wallpaper "thumbnailPath")
    then buildImageUrl (prop wallpaper "thumbnailPath")
    else js_or (prop wallpaper "thumbnailUrl") (JStr "") in
  let previewUrl :=
    if truthy (prop wallpaper "previewPath")
    then buildImageUrl (prop wallpaper "previewPath")
    else js_or (prop wallpaper "previewUrl") JNull in
  let downloadUrl :=
    if truthy (prop wallpaper "path") then buildImageUrl (prop wallpaper "path")
    else js_or (prop wallpaper "downloadUrl") (JStr "") in
  <["downloadUrl" := downloadUrl]>
    (<["previewUrl" := previewUrl]>
       (<["thumbnailUrl" := thumbnailUrl]>
          (<["url" := url]> wallpaper))).

(** [loadSeriesIndex] *)
Definition loadSeriesIndex (seriesId : string) : M Document :=
  cache ← gets seriesIndexCache;
  match js_get no_properties cache seriesId with
  | Some indexData => mret indexData
  | None =>
      match js_get no_config SERIES_CONFIG seriesId with
      | None => throw (Error ("Invalid series: " +:+ seriesId))
      | Some seriesConfig =>
          try_catch
            (response ← js_fetch (indexUrl seriesConfig);
             if negb (ok response)
             then throw (Error ("HTTP error! status: " +:+ pretty (status response)))
             else
               data ← lift (json response);
               let encoded := js_or (blob data) (payload data) in
               indexData ←
                 (if truthy encoded then
                    try_catch
                      (cats ← decodeDataWithWorker workerCategories parseCategories encoded;
                       mret {| generatedAt := generatedAt data;
                               series := series data;
                               seriesName := seriesName data;
                               total := total data;
                               categoryCount := categoryCount data;
                               categories := Some cats;
                               schema := schema data;
                               env := env data;
                               blob := JUndefined;
                               payload := JUndefined;
                               json_wallpapers := WScalar JUndefined |})
                      (fun err =>
                         _ ← console_warn "Failed to decode category index:" err;
                         mret data)
                  else mret data);
               _ ← modify (set_seriesIndexCache <[seriesId := indexData]>);
               mret indexData)
            (fun e =>
               _ ← console_error ("Failed to load series index for " +:+ seriesId +:+ ":") e;
               throw e)
      end
  end.

(** [loadCategory].  The key of the category cache holds a colon, which
    no name of [Object.prototype] does: the read of the cache finds own
    properties only. *)
Definition loadCategory (seriesId categoryFile : string) : M (list Item) :=
  let key := cacheKey seriesId categoryFile in
  cache ← gets categoryCache;
  match cache !! key with
  | Some cached => mret cached
  | None =>
      match js_get no_config SERIES_CONFIG seriesId with
      | None => throw (Error ("Invalid series: " +:+ seriesId))
      | Some seriesConfig =>
          try_catch
            (let categoryUrl := categoryBaseUrl seriesConfig +:+ "/" +:+ categoryFile in
             response ← js_fetch categoryUrl;
             if negb (ok response)
             then throw (Error ("HTTP error! status: " +:+ pretty (status response)))
             else
               data ← lift (json response);
               let encoded := js_or (blob data) (payload data) in
               wallpaperList ←
                 (if truthy encoded then
                    try_catch
                      (decoded ← decodeDataWithWorker workerPayload parsePayload encoded;
                       lift (wallpapers_or_self decoded))
                      (fun err =>
                         _ ← console_warn ("Failed to decode category " +:+ categoryFile +:+ ":") err;
                         mret (wallpapers_or_empty data))
                  else mret (wallpapers_or_empty data));
               transformedList ← js_map transformWallpaperUrls wallpaperList;
               _ ← modify (set_categoryCache <[key := transformedList]>);
               mret transformedList)
            (fun e =>
               _ ← console_error ("Failed to load category " +:+ categoryFile +:+ ":") e;
               throw e)
      end
  end.

(** The call [loadRemainingCategories(seriesId, remainingCategories)] of
    [initSeries] is not awaited: the task is started and [initSeries] goes
    on.  Nothing of the task touches the store before its first [await],
    so starting it is recorded as queueing it. *)
Definition spawn (seriesId : string) (cats : list CategoryDescriptor) : M unit :=
  modify (set_background (fun q => q ++ [(seriesId, cats)])).

(** One turn of the [for (const batch of batches)] loop of
    [loadRemainingCategories]. *)
Definition load_batch (seriesId : string) (batch : list CategoryDescriptor) : M unit :=
  loaded ← gets loadedCategories;
  let unloadedBatch := unloaded loaded batch in
  if (length unloadedBatch =? 0)%nat then mret tt
  else
    try_catch
      (batchResults ←
         promise_all (fun cat => loadCategory seriesId (file cat)) unloadedBatch;
       let batchData := concat batchResults in
       _ ← modify (set_wallpapers (fun ws => ws ++ batchData));
       _ ← modify (set_loadedCategories (add_files unloadedBatch));
       sleep 150)
      (fun e => console_warn "Failed to load batch:" e).

(** [loadRemainingCategories] *)
Definition loadRemainingCategories (seriesId : string)
    (cats : list CategoryDescriptor) : M unit :=
  let batches := make_batches cats in
  _ ← for_of (load_batch seriesId) batches;
  _ ← modify (set_isBackgroundLoading false);
  n ← gets (fun st => length (wallpapers st));
  modify (set_initialLoadedCount n).

(** The tasks started and not awaited run once the caller has returned. *)
Definition run_background : M unit :=
  tasks ← gets background;
  _ ← modify (set_background (fun _ => []));
  for_of (fun task => loadRemainingCategories task.1 task.2) tasks.

(** The guard at the head of [initSeries]. *)
Definition already_loaded (seriesId : string) (forceRefresh : bool) (st : Store) : bool :=
  negb forceRefresh
  && bool_decide (currentLoadedSeries st = seriesId)
  && (0 <? length (wallpapers st))%nat.

(** [e.message || '...'] *)
Definition message_or (e : JsError) (fallback : string) : string :=
  if String.eqb (message e) "" then fallback else message e.

(** [initSeries] *)
Definition initSeries (seriesId : string) (forceRefresh : bool) : M unit :=
  skip ← gets (already_loaded seriesId forceRefresh);
  if (skip : bool) then mret tt
  else
    _ ← modify (set_loading true);
    _ ← modify (set_error None);
    _ ← modify (set_currentLoadedSeries seriesId);
    _ ← modify (set_loadedCategories (fun _ => ∅));
    _ ← modify (set_isBackgroundLoading false);
    _ ← modify (set_initialLoadedCount 0%nat);
    try_finally
      (try_catch
         (indexData ← loadSeriesIndex seriesId;
          cats ← categories_of indexData;
          let initialCategories := take 3 cats in
          categoryDataArrays ←
            promise_all (fun cat => loadCategory seriesId (file cat)) initialCategories;
          _ ← modify (set_wallpapers (fun _ => concat categoryDataArrays));
          _ ← modify (set_loadedCategories (add_files initialCategories));
          n ← gets (fun st => length (wallpapers st));
          _ ← modify (set_initialLoadedCount n);
          let remainingCategories := drop 3 cats in
          if (0 <? length remainingCategories)%nat then
            _ ← modify (set_isBackgroundLoading true);
            spawn seriesId remainingCategories
          else mret tt)
         (fun e =>
            _ ← console_error ("Failed to init series " +:+ seriesId +:+ ":") e;
            _ ← modify (set_error (Some (message_or e "加载壁纸数据失败")));
            modify (set_wallpapers (fun _ => []))))
      (modify (set_loading false)).

(** [loadAllCategories] *)
Definition loadAllCategories (seriesId : string) : M unit :=
  cache ← gets seriesIndexCache;
  match js_get no_properties cache seriesId with
  | None => _ ← loadSeriesIndex seriesId; mret tt
  | Some indexData =>
      cats ← categories_of indexData;
      loaded ← gets loadedCategories;
      let unloadedCategories := unloaded loaded cats in
      if (length unloadedCategories =? 0)%nat then mret tt
      else
        _ ← modify (set_loading true);
        try_finally (loadRemainingCategories seriesId unloadedCategories)
          (modify (set_loading false))
  end.

(** [getWallpaperIndex] *)
Definition getWallpaperIndex (id : jsval) (st : Store) : Z :=
  findIndex (fun w => strict_eq (prop w "id") id) (wallpapers st).

(** [getPrevWallpaper] *)
Definition getPrevWallpaper (currentId : jsval) (st : Store) : ItemRef :=
  let index := getWallpaperIndex currentId st in
  if 0 <? index then index_at (wallpapers st) (index - 1) else RNull.

(** [getNextWallpaper] *)
Definition getNextWallpaper (currentId : jsval) (st : Store) : ItemRef :=
  let index := getWallpaperIndex currentId st in
  if index <? Z.of_nat (length (wallpapers st)) - 1
  then index_at (wallpapers st) (index + 1)
  else RNull.

(** [clearCache]; [None] is the call without an argument.  An empty string
    fails the test [if (seriesId)] like [undefined] does. *)
Definition clearCache (seriesId : option string) (st : Store) : Store :=
  match seriesId with
  | Some id =>
      if negb (String.eqb id "") then
        set_categoryCache
          (filter (fun kv => String.prefix (id +:+ ":") kv.1 = false))
          (set_seriesIndexCache (delete id) st)
      else set_categoryCache (fun _ => ∅) (set_seriesIndexCache (fun _ => ∅) st)
  | None => set_categoryCache (fun _ => ∅) (set_seriesIndexCache (fun _ => ∅) st)
  end.

End Store.

(** ** The composable [useWallpapers] *)

Module Composable.
Section Composable.

Variable buildImageUrl : jsval -> jsval.

(** [transformWallpaperUrls] of [composables/useWallpapers.js]: URLs are
built from the relative paths only. *)
Definition transformWallpaperUrls (wallpaper : Item) : Item :=
let url :=
if truthy (prop wallpaper "path") then buildImageUrl (prop wallpaper "path")
else JStr "" in
let thumbnailUrl :=
if truthy (prop wallpaper "thumbnailPath")
then buildImageUrl (prop wallpaper "thumbnailPath")
else JStr "" in
let previewUrl :=
if truthy (prop wallpaper "previewPath")
then buildImageUrl (prop wallpaper "previewPath")
else JNull in
let downloadUrl :=
if truthy (prop wallpaper "path") then buildImageUrl (prop wallpaper "path")
else JStr "" in
<["downloadUrl" := downloadUrl]>
(<["previewUrl" := previewUrl]>
   (<["thumbnailUrl" := thumbnailUrl]>
      (<["url" := url]> wallpaper))).

(** The callback that [fetchWallpapers] maps over the fetched list. *)
Definition resolve_item (wallpaper : Item) : Item :=
if truthy (prop wallpaper "url") && truthy (prop wallpaper "thumbnailUrl")
then wallpaper
else transformWallpaperUrls wallpaper.

End Composable.
End Composable.

(** * A concrete deployment

    The static tables and helpers of [@/utils/constants], [@/utils/format]
    and [@/utils/codec], and a remote data set, to run the store on. *)
Module Example.

(** Modelled from the spec: [SERIES_CONFIG] of [@/utils/constants] is not
    part of the sources at hand.  The spec gives a table keyed by series id
    whose entries expose an index URL, a category base URL and a legacy
    full-data URL; the series are desktop, mobile and avatar. *)
Definition SERIES_CONFIG : gmap string SeriesConfig :=
  list_to_map
    [ ("desktop", mkSeriesConfig "/data/desktop/index.json" "/data/desktop" "/data/desktop.json");
      ("mobile", mkSeriesConfig "/data/mobile/index.json" "/data/mobile" "/data/mobile.json");
      ("avatar", mkSeriesConfig "/data/avatar/index.json" "/data/avatar" "/data/avatar.json") ].

(** Modelled from the spec: [buildImageUrl] of [@/utils/format] is not part
    of the sources at hand.  The spec asks for an absolute URL made of the
    configured asset base, the relative path and a cache-busting query
    parameter, the same for the same path. *)
Definition buildImageUrl (path : jsval) : jsval :=
  match path with
  | JStr p => JStr ("https://cdn.example.org/assets" +:+ p +:+ "?v=1")
  | _ => JStr "https://cdn.example.org/assets?v=1"
  end.

Definition item (id path : string) : Item :=
  {[ "id" := JStr id; "path" := JStr path; "format" := JStr "JPG" ]}.

(** A wallpaper of a pre-resolved document that also has a relative path. *)
Definition preresolved : Item :=
  {[ "id" := JStr "p1"; "path" := JStr "/desktop/p1.jpg";
     "url" := JStr "https://legacy.example.org/p1.jpg" ]}.

(** A wallpaper of a pre-resolved document without relative paths. *)
Definition absolute_only : Item :=
  {[ "id" := JStr "p2"; "url" := JStr "https://legacy.example.org/p2.jpg";
     "previewUrl" := JStr "https://legacy.example.org/p2-preview.jpg" ]}.

Definition plain (ws : list Item) : Document :=
  mkDocument JUndefined JUndefined JUndefined JUndefined JUndefined None
    JUndefined JUndefined JUndefined JUndefined (WArray (Some <$> ws)).

Definition manifest (files : list string) : Document :=
  mkDocument (JStr "2025-01-01") (JStr "s") (JStr "S") (JNum 0) (JNum 0)
    (Some ((fun f => mkCategory f JUndefined JUndefined) <$> files))
    JUndefined JUndefined JUndefined JUndefined (WScalar JUndefined).

Definition encoded_doc (b : string) (ws : option (list Item)) : Document :=
  mkDocument JUndefined JUndefined JUndefined JUndefined JUndefined None
    JUndefined JUndefined (JStr b) JUndefined
    (match ws with
     | Some l => WArray (Some <$> l)
     | None => WScalar JUndefined
     end).

Definition ok200 (d : Document) : FetchResult := inr (mkResponse true 200 (inr d)).
Definition not_found : FetchResult :=
  inr (mkResponse false 404 (inl (SyntaxError "Unexpected token <"))).

(** The remote data set.  In series desktop the shard [e.json] is missing;
    in series mobile the shard [m2.json] is encoded and the shard
    [m4.json] carries an undecodable blob next to a plain list. *)
Definition fetch (url : string) : FetchResult :=
  if String.eqb url "/data/desktop/index.json"
  then ok200 (manifest ["a.json"; "b.json"; "c.json"; "d.json"; "e.json"; "f.json"])
  else if String.eqb url "/data/desktop/a.json" then ok200 (plain [item "a1" "/desktop/a1.jpg"])
  else if String.eqb url "/data/desktop/b.json" then ok200 (plain [item "b1" "/desktop/b1.jpg"])
  else if String.eqb url "/data/desktop/c.json" then ok200 (plain [item "c1" "/desktop/c1.jpg"])
  else if String.eqb url "/data/desktop/d.json" then ok200 (plain [item "d1" "/desktop/d1.jpg"])
  else if String.eqb url "/data/desktop/f.json" then ok200 (plain [item "f1" "/desktop/f1.jpg"])
  else if String.eqb url "/data/mobile/index.json"
  then ok200 (manifest ["m1.json"; "m2.json"; "m3.json"; "m4.json"])
  else if String.eqb url "/data/mobile/m1.json"
  then ok200 (plain [item "m1a" "/mobile/m1a.jpg"; item "m1b" "/mobile/m1b.jpg"])
  else if String.eqb url "/data/mobile/m2.json" then ok200 (encoded_doc "m2-blob" None)
  else if String.eqb url "/data/mobile/m3.json" then ok200 (plain [])
  else if String.eqb url "/data/mobile/m4.json"
  then ok200 (encoded_doc "garbage" (Some [item "m4a" "/mobile/m4a.jpg"]))
  else if String.eqb url "/data/avatar/index.json" then ok200 (manifest ["x.json"])
  else if String.eqb url "/data/avatar/x.json" then ok200 (plain [item "x1" "/avatar/x1.jpg"])
  else not_found.

Definition isWorkerAvailable : bool := false.

Definition decodeData (encoded : jsval) : JsError + string :=
  match encoded with
  | JStr "m2-blob" => inr "[m2a]"
  | _ => inl (Error "Invalid encoded data")
  end.

Definition parsePayload (jsonStr : string) : JsError + Decoded :=
  if String.eqb jsonStr "[m2a]" then inr (DecodedList [Some (item "m2a" "/mobile/m2a.jpg")])
  else inl (SyntaxError "Unexpected token").

Definition parseCategories (jsonStr : string) : JsError + list CategoryDescriptor :=
  inl (SyntaxError "Unexpected token").

Definition workerPayload (encoded : jsval) : JsError + Decoded :=
  inl (Error "Worker not available").

Definition workerCategories (encoded : jsval) : JsError + list CategoryDescriptor :=
  inl (Error "Worker not available").

(** A store whose caches hold entries of two series. *)
Definition two_series_store : Store :=
  set_categoryCache
    (fun _ => {[ "desktop:a.json" := [item "a1" "/desktop/a1.jpg"];
                 "mobile:m1.json" := [item "m1a" "/mobile/m1a.jpg"] ]})
    (set_seriesIndexCache
       (fun _ => {[ "desktop" := manifest ["a.json"];
                    "mobile" := manifest ["m1.json"] ]})
       initial_store).

Definition loadSeriesIndex :=
  loadSeriesIndex SERIES_CONFIG fetch isWorkerAvailable decodeData
    parseCategories workerCategories.
Definition loadCategory :=
  loadCategory SERIES_CONFIG buildImageUrl fetch isWorkerAvailable decodeData
    parsePayload workerPayload.
Definition initSeries :=
  initSeries SERIES_CONFIG buildImageUrl fetch isWorkerAvailable decodeData
    parseCategories workerCategories parsePayload workerPayload.
Definition loadRemainingCategories :=
  loadRemainingCategories SERIES_CONFIG buildImageUrl fetch isWorkerAvailable
    decodeData parsePayload workerPayload.
Definition run_background :=
  run_background SERIES_CONFIG buildImageUrl fetch isWorkerAvailable
    decodeData parsePayload workerPayload.
Definition load_batch :=
  load_batch SERIES_CONFIG buildImageUrl fetch isWorkerAvailable decodeData
    parsePayload workerPayload.
Definition loadAllCategories :=
  loadAllCategories SERIES_CONFIG buildImageUrl fetch isWorkerAvailable decodeData
    parseCategories workerCategories parsePayload workerPayload.

Definition category (f : string) : CategoryDescriptor :=
  mkCategory f JUndefined JUndefined.

(** The store once [initSeries('desktop')] has returned, before the
    background task runs. *)
Definition desktop_activated : Store :=
  (initSeries "desktop" false initial_store).2.

Definition mobile_categories : list CategoryDescriptor :=
  category <$> ["m1.json"; "m2.json"; "m3.json"; "m4.json"].

(** The resolved item lists of the four mobile categories. *)
Definition mobile_items : list (list Item) :=
  [ transformWallpaperUrls buildImageUrl
      <$> [item "m1a" "/mobile/m1a.jpg"; item "m1b" "/mobile/m1b.jpg"];
    transformWallpaperUrls buildImageUrl <$> [item "m2a" "/mobile/m2a.jpg"];
    [];
    transformWallpaperUrls buildImageUrl <$> [item "m4a" "/mobile/m4a.jpg"] ].

(** A network that is down. *)
Definition offline (url : string) : FetchResult := inl (TypeError "Failed to fetch").

Definition ids (st : Store) : list jsval :=
  (fun w => prop w "id") <$> wallpapers st.

(** A remote data set on which every request succeeds and nothing is
    encoded.  The manifest of desktop lists four categories, the manifest
    of mobile four, the manifest of avatar five, the last two of which name
    the same file.  Every other URL serves a category of one wallpaper,
    whose id is the URL. *)
Definition healthy (url : string) : FetchResult :=
  if String.eqb url "/data/desktop/index.json"
  then ok200 (manifest ["a.json"; "b.json"; "c.json"; "d.json"])
  else if String.eqb url "/data/mobile/index.json"
  then ok200 (manifest ["m1.json"; "m2.json"; "m3.json"; "m4.json"])
  else if String.eqb url "/data/avatar/index.json"
  then ok200 (manifest ["x.json"; "y.json"; "z.json"; "w.json"; "w.json"])
  else ok200 (plain [{[ "id" := JStr url ]}]).

(** A category document whose blob cannot be decoded and whose
    [wallpapers] property is a string, served at every URL. *)
Definition malformed (url : string) : FetchResult :=
  ok200 (mkDocument JUndefined JUndefined JUndefined JUndefined JUndefined None
           JUndefined JUndefined (JStr "garbage") JUndefined (WScalar (JStr "oops"))).

End Example.

(** * Vocabulary of the properties *)

(** A series id that can serve as the series component of a cache key: it
    is not empty and holds no colon, the separator of [cacheKey]. *)
Fixpoint colon_free (s : string) : bool :=
  match s with
  | EmptyString => true
  | String c s' => negb (Ascii.eqb c ":"%char) && colon_free s'
  end.

Definition valid_series_id (s : string) : Prop := s ≠ "" /\ colon_free s = true.

(** The four kinds of URL of the resolver contract, the field that holds the
    absolute URL of each and the relative path field it is built from
    (download URLs are built from [path]). *)
Inductive Kind : Type := Full | Thumbnail | Preview | Download.

Definition url_field (k : Kind) : string :=
  match k with
  | Full => "url"
  | Thumbnail => "thumbnailUrl"
  | Preview => "previewUrl"
  | Download => "downloadUrl"
  end.

Definition path_field (k : Kind) : string :=
  match k with
  | Full => "path"
  | Thumbnail => "thumbnailPath"
  | Preview => "previewPath"
  | Download => "path"
  end.

(** What a kind resolves to when the item has neither path nor URL. *)
Definition missing_url (k : Kind) : jsval :=
  match k with
  | Preview => JNull
  | _ => JStr ""
  end.

(** [resolve(item, kind)]: the field of the transformed item. *)
Definition resolve (buildImageUrl : jsval -> jsval) (w : Item) (k : Kind) : jsval :=
  prop (transformWallpaperUrls buildImageUrl w) (url_field k).

(** The cells of the store that only the orchestrator writes: the merged
    list, the set of loaded category files, and the rest. *)
Definition flags (st : Store) :=
  (currentLoadedSeries st, loading st, error st, isBackgroundLoading st,
   initialLoadedCount st, background st).

Definition view (st : Store) := (wallpapers st, loadedCategories st, flags st).

(** An action that throws whatever the store is. *)
Definition rejects {A} (m : M A) : Prop :=
  forall st, exists e st', m st = (Throw e, st').

(** The field of a wallpaper document that holds a URL or a path is a string
    when it is there: it is a string, [null] or absent. *)
Definition optional_string (v : jsval) : Prop :=
  v = JUndefined \/ v = JNull \/ is_string v.

Definition well_typed (w : Item) : Prop :=
  forall k : Kind,
    optional_string (prop w (url_field k)) /\ optional_string (prop w (path_field k)).

(** The wallpapers of an array all of whose elements are objects. *)
Definition objects (elements : list (option Item)) : option (list Item) :=
  mapM id elements.

(** The wallpapers of a document whose [wallpapers] property is an array
    of objects. *)
Definition doc_wallpapers (d : Document) : option (list Item) :=
  match json_wallpapers d with
  | WArray elements => objects elements
  | WScalar _ | WObject => None
  end.

(** The plain list of a document: its [wallpapers] when they are an array
    of objects, the empty list when the property is absent or falsy.  An
    array that holds [null], and a truthy value that is not an array, give
    no list. *)
Definition plain_list (d : Document) : option (list Item) :=
  match json_wallpapers d with
  | WArray elements => objects elements
  | WScalar v => if truthy v then None else Some []
  | WObject => None
  end.

Definition decoded_well_typed (decoded : Decoded) : Prop :=
  match decoded with
  | DecodedScalar _ => True
  | DecodedList elements => forall l, objects elements = Some l -> Forall well_typed l
  | DecodedObject d => forall l, doc_wallpapers d = Some l -> Forall well_typed l
  end.

(** The resolved URL fields of a wallpaper: three strings, and a preview
    URL that is a string or [null].  A property that reads as a string or as
    [null] is present and is not [undefined]. *)
Definition resolved (w : Item) : Prop :=
  is_string (prop w "url")
  /\ is_string (prop w "thumbnailUrl")
  /\ is_string (prop w "downloadUrl")
  /\ (is_string (prop w "previewUrl") \/ prop w "previewUrl" = JNull).

(** An action whose result does not depend on the store it starts from. *)
Definition state_independent {A} (m : M A) : Prop :=
  forall s1 s2, (m s1).1 = (m s2).1.

(** The merged list of a sequence of categories, given what the load of
    each category file resolves to: the item lists, one after the other. *)
Definition merged (items_of : string -> list Item) (cats : list CategoryDescriptor)
    : list Item :=
  concat ((fun cat => items_of (file cat)) <$> cats).

(** Every category of the list loads, from store [st], to its item list. *)
Definition loads_ok (load : string -> M (list Item)) (items_of : string -> list Item)
    (cats : list CategoryDescriptor) (st : Store) : Prop :=
  forall cat, cat ∈ cats -> (load (file cat) st).1 = Ok (items_of (file cat)).

(** * Properties *)

(** ** Navigation: [getNextWallpaper] *)

Lemma findIndex_from_absent {A} (p : A -> bool) (l : list A) (i : Z) :
  Forall (fun x => p x = false) l -> findIndex_from p l i = -1.
Proof.
  intros H. revert i.
  induction H as [|x l Hx _ IH]; intros i; simpl; [done|].
  rewrite Hx. apply IH.
Qed.

Lemma getWallpaperIndex_absent (id : jsval) (st : Store) :
  (forall w, w ∈ wallpapers st -> prop w "id" ≠ id) ->
  getWallpaperIndex id st = -1.
Proof.
  intros H. unfold getWallpaperIndex, findIndex.
  apply findIndex_from_absent, Forall_forall.
  intros w Hw. unfold strict_eq. apply bool_decide_eq_false, H, Hw.
Qed.

(** C10.  When the merged list is not empty and no wallpaper of it has the
    given id, [getNextWallpaper] returns the first wallpaper of the list,
    not [null]: [findIndex] gives [-1], which is below [length - 1]. *)
Theorem getNextWallpaper_unknown_id (id : jsval) (st : Store) :
  wallpapers st ≠ [] ->
  (forall w, w ∈ wallpapers st -> prop w "id" ≠ id) ->
  exists first,
    head (wallpapers st) = Some first /\ getNextWallpaper id st = RItem first.
Proof.
  intros Hne Habs.
  unfold getNextWallpaper. rewrite (getWallpaperIndex_absent _ _ Habs).
  destruct (wallpapers st) as [|w ws] eqn:E; [done|].
  exists w. split; [done|].
  replace (-1 <? Z.of_nat (length (w :: ws)) - 1) with true
    by (symmetry; apply Z.ltb_lt; simpl; lia).
  reflexivity.
Qed.

Lemma getNextWallpaper_unknown_id_witness :
  exists first,
    head [Example.item "a1" "/desktop/a1.jpg"; Example.item "b1" "/desktop/b1.jpg"]
      = Some first /\
    getNextWallpaper (JStr "zz")
      (set_wallpapers (fun _ => [Example.item "a1" "/desktop/a1.jpg";
                                 Example.item "b1" "/desktop/b1.jpg"]) initial_store)
    = RItem first.
Proof.
  apply (getNextWallpaper_unknown_id (JStr "zz")
    (set_wallpapers (fun _ => [Example.item "a1" "/desktop/a1.jpg";
                               Example.item "b1" "/desktop/b1.jpg"]) initial_store)).
  - simpl. discriminate.
  - simpl. intros w Hw.
    apply elem_of_cons in Hw as [->|Hw]; [vm_compute; discriminate|].
    apply elem_of_cons in Hw as [->|Hw]; [vm_compute; discriminate|].
    by apply elem_of_nil in Hw.
Defined.

(** ** Cache keys and [clearCache] *)

Lemma string_prefix_app (p k : string) :
  String.prefix p k = true <-> exists rest, k = p +:+ rest.
Proof.
  revert k. induction p as [|a p IH]; intros k.
  - split; [intros _; exists k; done | by destruct k].
  - destruct k as [|b k]; simpl.
    + split; [done | intros [rest ?]; done].
    + destruct (Ascii.ascii_dec a b) as [->|Hne].
      * rewrite IH. split; intros [rest Hk]; exists rest.
        -- by rewrite Hk.
        -- by injection Hk.
      * split; [done|]. intros [rest Hk]. injection Hk as -> _. done.
Qed.

Lemma string_app_assoc (a b c : string) : (a +:+ b) +:+ c = a +:+ (b +:+ c).
Proof.
  induction a as [|x a IH]; [done|].
  change (String x ((a +:+ b) +:+ c) = String x (a +:+ b +:+ c)).
  by f_equal.
Qed.

(** A key has the prefix [`${id}:`] exactly when it is a key of series [id]. *)
Lemma key_prefix_iff (id k : string) :
  String.prefix (id +:+ ":") k = true <-> exists f, k = cacheKey id f.
Proof.
  rewrite string_prefix_app. unfold cacheKey.
  split; intros [f Hk]; exists f; rewrite Hk.
  - apply string_app_assoc.
  - symmetry. apply string_app_assoc.
Qed.

(** Keys of colon-free series ids name their series. *)
Lemma cacheKey_series_inj (s t f g : string) :
  colon_free s = true -> colon_free t = true ->
  cacheKey s f = cacheKey t g -> s = t.
Proof.
  unfold cacheKey. revert t.
  induction s as [|a s IH]; intros [|b t] Hs Ht Heq; simpl in *.
  - done.
  - injection Heq as <- _. by rewrite Ascii.eqb_refl in Ht.
  - injection Heq as -> _. by rewrite Ascii.eqb_refl in Hs.
  - injection Heq as -> Heq.
    apply andb_prop in Hs as [_ Hs]. apply andb_prop in Ht as [_ Ht].
    f_equal. by apply IH.
Qed.

(** C8.  For a series id [S] (not empty, no colon), [clearCache(S)] removes
    the index entry of [S] and the category entries whose key is a key of
    [S], and nothing else: every other index entry, every category entry
    whose key is not a key of [S], hence every category entry of another
    series, and the rest of the store are as before. *)
Theorem clearCache_series_isolation (S : string) (st : Store) :
  valid_series_id S ->
  let st' := clearCache (Some S) st in
  seriesIndexCache st' !! S = None
  /\ (forall T, T ≠ S -> seriesIndexCache st' !! T = seriesIndexCache st !! T)
  /\ (forall f, categoryCache st' !! cacheKey S f = None)
  /\ (forall k, (forall f, k ≠ cacheKey S f) ->
        categoryCache st' !! k = categoryCache st !! k)
  /\ (forall T f, valid_series_id T -> T ≠ S ->
        categoryCache st' !! cacheKey T f = categoryCache st !! cacheKey T f)
  /\ wallpapers st' = wallpapers st
  /\ loadedCategories st' = loadedCategories st
  /\ currentLoadedSeries st' = currentLoadedSeries st.
Proof.
  intros [Hne Hcolon] st'.
  assert (Hst' : st' = set_categoryCache
            (filter (fun kv => String.prefix (S +:+ ":") kv.1 = false))
            (set_seriesIndexCache (delete S) st)).
  { unfold st', clearCache.
    destruct (String.eqb_spec S "") as [->|_]; [done | reflexivity]. }
  rewrite Hst'. simpl.
  assert (Hother : forall k, (forall f, k ≠ cacheKey S f) ->
    filter (fun kv : string * list Item => String.prefix (S +:+ ":") kv.1 = false)
      (categoryCache st) !! k = categoryCache st !! k).
  { intros k Hk.
    destruct (categoryCache st !! k) as [l|] eqn:E.
    - apply map_lookup_filter_Some. split; [done|]. simpl.
      apply not_true_is_false. intros Hp.
      apply key_prefix_iff in Hp as [f ->]. by apply (Hk f).
    - apply map_lookup_filter_None. by left. }
  split_and!; try done.
  - apply lookup_delete_eq.
  - intros T HT. by apply lookup_delete_ne.
  - intros f. apply map_lookup_filter_None. right. intros l _. simpl.
    intros Hp. assert (String.prefix (S +:+ ":") (cacheKey S f) = true) as Ht
      by (apply key_prefix_iff; eauto).
    congruence.
  - intros T f [_ HT] HTS. apply Hother. intros g Heq.
    apply HTS. by eapply cacheKey_series_inj.
Qed.

Lemma clearCache_series_isolation_witness :
  valid_series_id "desktop"
  /\ seriesIndexCache (clearCache (Some "desktop") Example.two_series_store) !! "desktop"
     = None
  /\ seriesIndexCache (clearCache (Some "desktop") Example.two_series_store) !! "mobile"
     = seriesIndexCache Example.two_series_store !! "mobile"
  /\ categoryCache (clearCache (Some "desktop") Example.two_series_store)
       !! cacheKey "desktop" "a.json" = None
  /\ categoryCache (clearCache (Some "desktop") Example.two_series_store)
       !! cacheKey "mobile" "m1.json"
     = categoryCache Example.two_series_store !! cacheKey "mobile" "m1.json".
Proof.
  assert (Hd : valid_series_id "desktop") by (split; [discriminate | reflexivity]).
  assert (Hm : valid_series_id "mobile") by (split; [discriminate | reflexivity]).
  pose proof (clearCache_series_isolation "desktop" Example.two_series_store Hd)
    as (H1 & H2 & H3 & _ & H5 & _).
  split_and!.
  - exact Hd.
  - exact H1.
  - apply H2. discriminate.
  - exact (H3 "a.json").
  - apply H5; [exact Hm | discriminate].
Defined.

(** ** URL resolution *)

Section Resolve.

Variable buildImageUrl : jsval -> jsval.

Lemma resolve_eq (w : Item) (k : Kind) :
  resolve buildImageUrl w k =
    if truthy (prop w (path_field k))
    then buildImageUrl (prop w (path_field k))
    else js_or (prop w (url_field k)) (missing_url k).
Proof.
  unfold resolve, transformWallpaperUrls, prop at 1.
  destruct k; simpl; by simplify_map_eq.
Qed.

(** The transformation leaves every other property as it is. *)
Lemma transformWallpaperUrls_other (w : Item) (key : string) :
  (forall k, key ≠ url_field k) ->
  prop (transformWallpaperUrls buildImageUrl w) key = prop w key.
Proof.
  intros H. unfold transformWallpaperUrls, prop.
  pose proof (H Full). pose proof (H Thumbnail).
  pose proof (H Preview). pose proof (H Download). simpl in *.
  by rewrite !lookup_insert_ne.
Qed.

(** The transformation of the composable looks at the relative paths
    only. *)
Lemma composable_resolve_eq (w : Item) (k : Kind) :
  prop (Composable.transformWallpaperUrls buildImageUrl w) (url_field k) =
    if truthy (prop w (path_field k))
    then buildImageUrl (prop w (path_field k))
    else missing_url k.
Proof.
  unfold Composable.transformWallpaperUrls, prop at 1.
  destruct k; simpl; by simplify_map_eq.
Qed.

(** C2, as the code has it.  An absolute URL that an item carries is not
    always returned verbatim.  In the store, [transformWallpaperUrls]
    builds the URL of a kind from the relative path of the kind whenever
    that path is not empty, whatever absolute URL the item carries, and
    returns the absolute URL verbatim when the path is absent or empty.
    In the composable, the callback of [fetchWallpapers] passes an item
    through untouched, with the URLs it carries, when its [url] and its
    [thumbnailUrl] are both non-empty; every other item has each URL
    rebuilt from the relative path alone, the empty string (or [null] for
    the preview) when there is no path: the absolute URL it carries is
    dropped. *)
Theorem absolute_url_resolution (w : Item) (k : Kind) :
  (truthy (prop w (path_field k)) = true ->
     resolve buildImageUrl w k = buildImageUrl (prop w (path_field k)))
  /\ (truthy (prop w (path_field k)) = false ->
      truthy (prop w (url_field k)) = true ->
      resolve buildImageUrl w k = prop w (url_field k))
  /\ (truthy (prop w "url") && truthy (prop w "thumbnailUrl") = true ->
      Composable.resolve_item buildImageUrl w = w)
  /\ (truthy (prop w "url") && truthy (prop w "thumbnailUrl") = false ->
      prop (Composable.resolve_item buildImageUrl w) (url_field k)
      = if truthy (prop w (path_field k))
        then buildImageUrl (prop w (path_field k))
        else missing_url k).
Proof.
  split_and!.
  - intros Hpath. by rewrite resolve_eq, Hpath.
  - intros Hpath Hurl. rewrite resolve_eq, Hpath. unfold js_or. by rewrite Hurl.
  - intros Hboth. unfold Composable.resolve_item. by rewrite Hboth.
  - intros Hnot. unfold Composable.resolve_item. rewrite Hnot.
    apply composable_resolve_eq.
Qed.

End Resolve.

Lemma absolute_url_resolution_witness :
  resolve Example.buildImageUrl Example.absolute_only Full
    = JStr "https://legacy.example.org/p2.jpg"
  /\ resolve Example.buildImageUrl Example.preresolved Full
    = JStr "https://cdn.example.org/assets/desktop/p1.jpg?v=1"
  /\ prop (Composable.resolve_item Example.buildImageUrl Example.absolute_only) "url"
    = JStr ""
  /\ prop (Composable.resolve_item Example.buildImageUrl Example.absolute_only)
       "previewUrl"
    = JNull.
Proof.
  split_and!.
  - exact (proj1 (proj2 (absolute_url_resolution Example.buildImageUrl
                           Example.absolute_only Full)) eq_refl eq_refl).
  - exact (proj1 (absolute_url_resolution Example.buildImageUrl
                    Example.preresolved Full) eq_refl).
  - exact (proj2 (proj2 (proj2 (absolute_url_resolution Example.buildImageUrl
                                  Example.absolute_only Full))) eq_refl).
  - exact (proj2 (proj2 (proj2 (absolute_url_resolution Example.buildImageUrl
                                  Example.absolute_only Preview))) eq_refl).
Defined.

(** C2 as stated fails at both places.  In the store, a wallpaper that
    carries both [url] and [path] gets its [url] rebuilt from the path; the
    value it carried is lost.  In the composable, a wallpaper that carries
    a [url] and no [thumbnailUrl] loses its [url]. *)
Lemma resolve_absolute_url_counterexample :
  Example.preresolved !! "url" = Some (JStr "https://legacy.example.org/p1.jpg")
  /\ Example.preresolved !! "path" = Some (JStr "/desktop/p1.jpg")
  /\ resolve Example.buildImageUrl Example.preresolved Full
     = JStr "https://cdn.example.org/assets/desktop/p1.jpg?v=1"
  /\ resolve Example.buildImageUrl Example.preresolved Full
     ≠ prop Example.preresolved "url"
  /\ Example.absolute_only !! "url" = Some (JStr "https://legacy.example.org/p2.jpg")
  /\ prop (Composable.resolve_item Example.buildImageUrl Example.absolute_only) "url"
     = JStr "".
Proof. split_and!; [reflexivity..| |reflexivity|reflexivity]. vm_compute. discriminate. Qed.

(** ** The two cache layers *)

(** Unfolds the combinators of [M] down to matches on results. *)
Ltac unfold_M :=
  unfold mbind, M_bind, mret, M_ret, try_catch, try_finally, throw, gets,
    modify, lift, js_fetch, console_warn, console_error, js_map, sleep,
    categories_of in *.

Ltac step_M :=
  repeat (first
    [ progress unfold_M
    | progress simplify_eq/=
    | case_match ]).


(** *** Results that do not depend on the store *)

Lemma si_ret {A} (a : A) : state_independent (mret a).
Proof. by intros s1 s2. Qed.

Lemma si_throw {A} (e : JsError) : state_independent (@throw A e).
Proof. by intros s1 s2. Qed.

Lemma si_lift {A} (r : JsError + A) : state_independent (lift r).
Proof. by destruct r; intros s1 s2. Qed.

Lemma si_modify (f : Store -> Store) : state_independent (modify f).
Proof. by intros s1 s2. Qed.

Lemma si_bind {A B} (m : M A) (k : A -> M B) :
  state_independent m -> (forall a, state_independent (k a)) ->
  state_independent (m ≫= k).
Proof.
  intros Hm Hk s1 s2. unfold mbind, M_bind.
  specialize (Hm s1 s2).
  destruct (m s1) as [[a1|e1] t1], (m s2) as [[a2|e2] t2]; simplify_eq/=; [|done].
  apply Hk.
Qed.

Lemma si_try_catch {A} (body : M A) (handler : JsError -> M A) :
  state_independent body -> (forall e, state_independent (handler e)) ->
  state_independent (try_catch body handler).
Proof.
  intros Hm Hk s1 s2. unfold try_catch.
  specialize (Hm s1 s2).
  destruct (body s1) as [[a1|e1] t1], (body s2) as [[a2|e2] t2]; simplify_eq/=; [done|].
  apply Hk.
Qed.

Lemma bind_gets {A B} (f : Store -> A) (k : A -> M B) (st : Store) :
  (gets f ≫= k) st = k (f st) st.
Proof. reflexivity. Qed.

Create HintDb state_indep.
#[global] Hint Resolve si_ret si_throw si_lift si_modify : state_indep.

Ltac solve_si :=
  repeat first
    [ progress intros
    | solve [auto with state_indep]
    | progress cbv zeta
    | apply si_bind
    | apply si_try_catch
    | match goal with
      | |- state_independent (if ?b then _ else _) => destruct b
      | |- state_independent (match ?x with _ => _ end) => destruct x
      end ].

(** *** Reads of a plain object *)

Lemma js_get_own {A} (proto : A) (obj : gmap string A) (k : string) (v : A) :
  obj !! k = Some v -> js_get proto obj k = Some v.
Proof. intros H. unfold js_get. by rewrite H. Qed.

Lemma js_get_insert {A} (proto : A) (obj : gmap string A) (k : string) (v : A) :
  js_get proto (<[k := v]> obj) k = Some v.
Proof. apply js_get_own, lookup_insert_eq. Qed.

Lemma js_get_None {A} (proto : A) (obj : gmap string A) (k : string) :
  js_get proto obj k = None <-> obj !! k = None /\ inherited k = false.
Proof.
  unfold js_get. destruct (obj !! k); [by split; [|intros [? _]]|].
  destruct (inherited k); by split; [|intros [_ ?]].
Qed.

(** A key of the category cache is not a name of [Object.prototype]. *)
Lemma cacheKey_not_inherited (seriesId categoryFile : string) :
  inherited (cacheKey seriesId categoryFile) = false.
Proof.
  apply bool_decide_eq_false. intros Hin.
  assert (Hfree : colon_free (cacheKey seriesId categoryFile) = true).
  { unfold inherited_names in Hin.
    repeat (apply elem_of_cons in Hin as [->|Hin]; [reflexivity|]).
    by apply elem_of_nil in Hin. }
  clear Hin. unfold cacheKey in Hfree.
  induction seriesId as [|c s IH]; simpl in Hfree.
  - done.
  - apply andb_prop in Hfree as [_ Hfree]. by apply IH.
Qed.

Section Loaders.

Variable SERIES_CONFIG : gmap string SeriesConfig.
Variable buildImageUrl : jsval -> jsval.
Variable fetch : string -> FetchResult.
Variable isWorkerAvailable : bool.
Variable decodeData : jsval -> JsError + string.
Variable parseCategories : string -> JsError + list CategoryDescriptor.
Variable workerCategories : jsval -> JsError + list CategoryDescriptor.
Variable parsePayload : string -> JsError + Decoded.
Variable workerPayload : jsval -> JsError + Decoded.

Local Abbreviation decode := (decodeDataWithWorker isWorkerAvailable decodeData).
Local Abbreviation loadSeriesIndex :=
  (loadSeriesIndex SERIES_CONFIG fetch isWorkerAvailable decodeData
     parseCategories workerCategories).
Local Abbreviation loadCategory :=
  (loadCategory SERIES_CONFIG buildImageUrl fetch isWorkerAvailable decodeData
     parsePayload workerPayload).

(** Decoding only writes to the logs. *)
Lemma decodeDataWithWorker_frame {A} (worker : jsval -> JsError + A)
    (parse : string -> JsError + A) (encoded : jsval) (st st' : Store) r :
  decode worker parse encoded st = (r, st') ->
  view st' = view st
  /\ seriesIndexCache st' = seriesIndexCache st
  /\ categoryCache st' = categoryCache st
  /\ fetchLog st' = fetchLog st.
Proof.
  unfold decodeDataWithWorker. intros H. step_M; done.
Qed.

Lemma loadCategory_inv (seriesId categoryFile : string) (st st' : Store) r :
  loadCategory seriesId categoryFile st = (r, st') ->
  view st' = view st
  /\ seriesIndexCache st' = seriesIndexCache st
  /\ categoryCache st ⊆ categoryCache st'
  /\ (forall l, r = Ok l ->
        categoryCache st' !! cacheKey seriesId categoryFile = Some l).
Proof.
  unfold loadCategory. intros H.
  destruct (categoryCache st !! cacheKey seriesId categoryFile) as [cached|] eqn:Hc.
  { step_M. split_and!; try done. by intros ? [= <-]. }
  step_M.
  all: repeat match goal with
       | H : decode _ _ _ _ = _ |- _ =>
           apply decodeDataWithWorker_frame in H as (?&?&?&?)
       end.
  all: unfold view, flags in *; simpl in *; simplify_eq.
  all: split_and!; try congruence; try done.
  all: try (intros ? [= <-]; apply lookup_insert_eq).
  all: try (match goal with
            | H : categoryCache _ = categoryCache _ |- _ => rewrite H
            end).
  all: first [done | by apply insert_subseteq].
Qed.

Lemma loadSeriesIndex_hit (seriesId : string) (st : Store) (indexData : Document) :
  js_get no_properties (seriesIndexCache st) seriesId = Some indexData ->
  loadSeriesIndex seriesId st = (Ok indexData, st).
Proof. intros H. unfold loadSeriesIndex. unfold_M. by rewrite H. Qed.

Lemma loadSeriesIndex_inv (seriesId : string) (st st' : Store) r :
  loadSeriesIndex seriesId st = (r, st') ->
  view st' = view st
  /\ categoryCache st' = categoryCache st
  /\ seriesIndexCache st ⊆ seriesIndexCache st'
  /\ (forall indexData, r = Ok indexData ->
        js_get no_properties (seriesIndexCache st') seriesId = Some indexData)
  /\ (length (fetchLog st') <= length (fetchLog st) + 1)%nat.
Proof.
  unfold loadSeriesIndex. intros H.
  destruct (js_get no_properties (seriesIndexCache st) seriesId) as [cached|] eqn:Hc.
  { step_M. split_and!; try done; [by intros ? [= <-] | lia]. }
  step_M.
  all: repeat match goal with
       | H : decode _ _ _ _ = _ |- _ =>
           apply decodeDataWithWorker_frame in H as (?&?&?&?)
       end.
  all: unfold view, flags in *; simpl in *; simplify_eq.
  all: split_and!; try congruence; try done.
  all: try (intros ? [= <-]; apply js_get_insert).
  all: try (match goal with
            | H : fetchLog _ = _ |- _ => rewrite H
            end; rewrite ?length_app; simpl; lia).
  all: try (rewrite ?length_app; simpl; lia).
  all: try (match goal with
            | H : seriesIndexCache _ = seriesIndexCache _ |- _ => rewrite H
            end).
  all: first [ done
             | apply insert_subseteq;
               match goal with
               | H : js_get _ _ _ = None |- _ => by apply js_get_None in H as [? _]
               end ].
Qed.

(** C7.  When a call of [loadSeriesIndex] resolves, it has issued at most
    one request, and a second call resolves to the same manifest and
    leaves the whole store, the request log and the decode log included,
    as the first call left it: the second call neither fetches nor
    decodes. *)
Theorem loadSeriesIndex_cached (seriesId : string) (st st1 : Store)
    (indexData : Document) :
  loadSeriesIndex seriesId st = (Ok indexData, st1) ->
  (length (fetchLog st1) <= length (fetchLog st) + 1)%nat
  /\ loadSeriesIndex seriesId st1 = (Ok indexData, st1).
Proof.
  intros H. apply loadSeriesIndex_inv in H as (_ & _ & _ & Hcached & Hlog).
  split; [exact Hlog|]. apply loadSeriesIndex_hit. by apply Hcached.
Qed.

(** *** Decode failures of a category *)

(** C9, as the code has it.  Take a category document that is fetched and
    parsed as a JSON object and whose blob (or payload) cannot be decoded.
    When its [wallpapers] property is an array of objects, [loadCategory]
    resolves to that list, URL-resolved; when the property is absent or
    falsy, it resolves to the empty list.  When the property is anything
    else, a truthy value that is not an array or an array that holds
    [null], [loadCategory] rejects with a [TypeError]: the list is mapped
    outside the [try] that absorbs the decode failure. *)
Theorem loadCategory_decode_failure (seriesId categoryFile : string) (st : Store)
    (seriesConfig : SeriesConfig) (response : Response) (data : Document) :
  categoryCache st !! cacheKey seriesId categoryFile = None ->
  SERIES_CONFIG !! seriesId = Some seriesConfig ->
  fetch (categoryBaseUrl seriesConfig +:+ "/" +:+ categoryFile) = inr response ->
  ok response = true ->
  json response = inr data ->
  truthy (js_or (blob data) (payload data)) = true ->
  rejects (decode workerPayload parsePayload (js_or (blob data) (payload data))) ->
  exists st',
    match plain_list data with
    | Some ws =>
        loadCategory seriesId categoryFile st
        = (Ok (transformWallpaperUrls buildImageUrl <$> ws), st')
    | None =>
        exists msg,
          loadCategory seriesId categoryFile st = (Throw (TypeError msg), st')
    end.
Proof.
  intros Hmiss Hcfg Hfetch Hok Hjson Henc Hdec.
  unfold loadCategory. repeat unfold_M.
  rewrite Hmiss, (js_get_own _ _ _ _ Hcfg). simpl.
  rewrite Hfetch. repeat unfold_M. rewrite Hok, Hjson. simpl. rewrite Henc.
  destruct (Hdec (log_fetch (categoryBaseUrl seriesConfig +:+ "/" +:+ categoryFile) st))
    as (e & s' & ->).
  simpl. unfold plain_list, wallpapers_or_empty, objects.
  destruct (json_wallpapers data) as [v|elements|].
  - destruct (truthy v); simpl; eauto.
  - destruct (mapM id elements); simpl; eauto.
  - simpl. eauto.
Qed.

(** *** Totality of URL resolution *)

Lemma decodeDataWithWorker_value {A} (worker : jsval -> JsError + A)
    (parse : string -> JsError + A) (encoded : jsval) (st st' : Store) (v : A) :
  decode worker parse encoded st = (Ok v, st') ->
  worker encoded = inr v \/ exists jsonStr, parse jsonStr = inr v.
Proof.
  unfold decodeDataWithWorker. intros H. step_M; eauto.
Qed.

Lemma resolve_string_or_missing (w : Item) (k : Kind) :
  (forall s, is_string (buildImageUrl (JStr s))) ->
  well_typed w ->
  is_string (resolve buildImageUrl w k) \/ resolve buildImageUrl w k = missing_url k.
Proof.
  intros Hbuild Hw. rewrite resolve_eq.
  destruct (Hw k) as [Hurl Hpath].
  destruct (truthy (prop w (path_field k))) eqn:Ht.
  - left. destruct Hpath as [E|[E|[s E]]]; rewrite E in Ht |- *; try done;
      apply Hbuild.
  - unfold js_or. destruct (truthy (prop w (url_field k))) eqn:Hu; [|by right].
    left. destruct Hurl as [E|[E|E]]; [by rewrite E in Hu..|done].
Qed.

Lemma transformWallpaperUrls_resolved (w : Item) :
  (forall s, is_string (buildImageUrl (JStr s))) ->
  well_typed w ->
  resolved (transformWallpaperUrls buildImageUrl w).
Proof.
  intros Hbuild Hw.
  pose proof (resolve_string_or_missing w Full Hbuild Hw) as HF.
  pose proof (resolve_string_or_missing w Thumbnail Hbuild Hw) as HT.
  pose proof (resolve_string_or_missing w Download Hbuild Hw) as HD.
  pose proof (resolve_string_or_missing w Preview Hbuild Hw) as HP.
  unfold resolve in *. simpl in *. unfold resolved.
  split_and!.
  - destruct HF as [?| ->]; [done | by eexists].
  - destruct HT as [?| ->]; [done | by eexists].
  - destruct HD as [?| ->]; [done | by eexists].
  - destruct HP as [?| ->]; [by left | by right].
Qed.

Lemma wallpapers_or_empty_objects (data : Document) (elements : list (option Item))
    (l : list Item) :
  wallpapers_or_empty data = AnArray elements ->
  objects elements = Some l ->
  l = [] \/ doc_wallpapers data = Some l.
Proof.
  unfold wallpapers_or_empty, doc_wallpapers. intros H Ho.
  destruct (json_wallpapers data) as [v|els|]; [|by simplify_eq; right|done].
  destruct (truthy v); [done|]. simplify_eq. left.
  change (Some [] = Some l) in Ho. congruence.
Qed.

Lemma wallpapers_or_self_objects (decoded : Decoded) (elements : list (option Item))
    (l : list Item) :
  wallpapers_or_self decoded = inr (AnArray elements) ->
  objects elements = Some l ->
  decoded_well_typed decoded ->
  Forall well_typed l.
Proof.
  intros H Ho Hd. destruct decoded as [v|els|d]; simpl in H, Hd.
  - by destruct v.
  - simplify_eq. by apply Hd.
  - apply Hd. unfold doc_wallpapers. unfold wallpapers_or_object in H.
    destruct (json_wallpapers d); by simplify_eq.
Qed.

(** C6.  Every wallpaper of a list that [loadCategory] resolves to has
    string [url], [thumbnailUrl] and [downloadUrl] and a [previewUrl] that
    is a string or [null], and so has every list left in the category
    cache.  The documents and decoded payloads are assumed to respect the
    shape of a wallpaper (URL and path fields are strings when present),
    [buildImageUrl] to build strings from strings, and the cache to hold
    resolved lists when the call starts. *)
Theorem loadCategory_resolved (seriesId categoryFile : string) (st st' : Store)
    (items : list Item) :
  (forall s, is_string (buildImageUrl (JStr s))) ->
  (forall url response data l,
      fetch url = inr response -> json response = inr data ->
      doc_wallpapers data = Some l -> Forall well_typed l) ->
  (forall jsonStr decoded,
      parsePayload jsonStr = inr decoded -> decoded_well_typed decoded) ->
  (forall encoded decoded,
      workerPayload encoded = inr decoded -> decoded_well_typed decoded) ->
  (forall key cached, categoryCache st !! key = Some cached -> Forall resolved cached) ->
  loadCategory seriesId categoryFile st = (Ok items, st') ->
  Forall resolved items
  /\ (forall key cached,
        categoryCache st' !! key = Some cached -> Forall resolved cached).
Proof.
  intros Hbuild Hfetch Hparse Hworker Hcache H.
  assert (Hmap : forall l, Forall well_typed l ->
            Forall resolved (transformWallpaperUrls buildImageUrl <$> l)).
  { intros l Hl. apply Forall_fmap. eapply Forall_impl; [exact Hl|].
    intros w Hw. by apply transformWallpaperUrls_resolved. }
  assert (Hitems : Forall resolved items
                   /\ (st' = st \/ categoryCache st' =
                         <[cacheKey seriesId categoryFile := items]> (categoryCache st))).
  { revert H. unfold loadCategory. intros H.
    destruct (categoryCache st !! cacheKey seriesId categoryFile) as [cached|] eqn:Hc.
    { step_M. split; [by eapply Hcache | by left]. }
    step_M.
    all: repeat match goal with
         | H : decode _ _ _ _ = (Ok _, _) |- _ =>
             pose proof (decodeDataWithWorker_value _ _ _ _ _ _ H);
             apply decodeDataWithWorker_frame in H as (?&?&?&?)
         | H : decode _ _ _ _ = (Throw _, _) |- _ =>
             apply decodeDataWithWorker_frame in H as (?&?&?&?)
         end.
    all: simpl in *.
    all: split; [|right; congruence].
    all: apply Hmap.
    all: first
      [ match goal with
        | H : wallpapers_or_self ?d = inr (AnArray ?els),
          Ho : mapM id ?els = Some ?l,
          Hv : workerPayload _ = inr ?d \/ _ |- _ =>
            apply (wallpapers_or_self_objects d els l H Ho);
            destruct Hv as [Hv|[? Hv]]; [eapply Hworker | eapply Hparse]; exact Hv
        end
      | match goal with
        | H : wallpapers_or_empty ?d = AnArray ?els,
          Ho : mapM id ?els = Some ?l |- _ =>
            destruct (wallpapers_or_empty_objects d els l H Ho) as [->|Hd];
            [apply Forall_nil_2 | eapply Hfetch; eauto]
        end ]. }
  destruct Hitems as [Hres Hst]. split; [exact Hres|].
  intros key cached Hk. destruct Hst as [->|Hst]; [by eapply Hcache|].
  rewrite Hst in Hk. apply lookup_insert_Some in Hk as [[_ <-]|[_ Hk]]; [done|].
  by eapply Hcache.
Qed.

(** *** What a load depends on *)

Lemma decodeDataWithWorker_independent {A} (worker : jsval -> JsError + A)
    (parse : string -> JsError + A) (encoded : jsval) :
  state_independent (decode worker parse encoded).
Proof.
  unfold decodeDataWithWorker, console_warn. solve_si.
Qed.

(** The result of [loadCategory] depends on the store through the cache
    entry of its key only. *)
Lemma loadCategory_result (seriesId categoryFile : string) (s1 s2 : Store) :
  categoryCache s1 !! cacheKey seriesId categoryFile
    = categoryCache s2 !! cacheKey seriesId categoryFile ->
  (loadCategory seriesId categoryFile s1).1 = (loadCategory seriesId categoryFile s2).1.
Proof.
  intros Hk. unfold loadCategory. rewrite !bind_gets, Hk.
  destruct (categoryCache s2 !! cacheKey seriesId categoryFile); [done|].
  destruct (js_get no_config SERIES_CONFIG seriesId); [|done].
  match goal with |- (?m s1).1 = (?m s2).1 =>
    cut (state_independent m); [intros Hsi; apply Hsi|]
  end.
  unfold js_fetch, js_map, console_warn, console_error.
  pose proof (@decodeDataWithWorker_independent Decoded).
  solve_si.
Qed.

(** The result of [loadSeriesIndex] depends on the store through the
    cache entry of the series only. *)
Lemma loadSeriesIndex_result (seriesId : string) (s1 s2 : Store) :
  seriesIndexCache s1 !! seriesId = seriesIndexCache s2 !! seriesId ->
  (loadSeriesIndex seriesId s1).1 = (loadSeriesIndex seriesId s2).1.
Proof.
  intros Hk. unfold loadSeriesIndex. rewrite !bind_gets.
  assert (js_get no_properties (seriesIndexCache s1) seriesId
          = js_get no_properties (seriesIndexCache s2) seriesId) as ->
    by (unfold js_get; by rewrite Hk).
  destruct (js_get no_properties (seriesIndexCache s2) seriesId); [done|].
  destruct (js_get no_config SERIES_CONFIG seriesId); [|done].
  match goal with |- (?m s1).1 = (?m s2).1 =>
    cut (state_independent m); [intros Hsi; apply Hsi|]
  end.
  unfold js_fetch, console_warn, console_error.
  pose proof (@decodeDataWithWorker_independent (list CategoryDescriptor)).
  solve_si.
Qed.

(** A load writes at most the cache entry of its key, with its result. *)
Lemma loadCategory_cache (seriesId categoryFile : string) (st st' : Store) r :
  loadCategory seriesId categoryFile st = (r, st') ->
  categoryCache st' = categoryCache st
  \/ exists l, r = Ok l
       /\ categoryCache st' = <[cacheKey seriesId categoryFile := l]> (categoryCache st).
Proof.
  unfold loadCategory. intros H.
  destruct (categoryCache st !! cacheKey seriesId categoryFile) as [cached|] eqn:Hc.
  { step_M. by left. }
  step_M.
  all: repeat match goal with
       | H : decode _ _ _ _ = _ |- _ =>
           apply decodeDataWithWorker_frame in H as (?&?&?&?)
       end.
  all: simpl in *.
  all: first [ by left | right; eexists; split; [done|congruence] ].
Qed.

End Loaders.

(** ** The progressive loader *)

Lemma string_app_inj_r (p a b : string) : p +:+ a = p +:+ b -> a = b.
Proof.
  induction p as [|c p IH]; intros H; [done|].
  change (String c (p +:+ a) = String c (p +:+ b)) in H.
  injection H as H. by apply IH.
Qed.

Lemma cacheKey_file_inj (seriesId f g : string) :
  cacheKey seriesId f = cacheKey seriesId g -> f = g.
Proof.
  unfold cacheKey. intros H.
  apply string_app_inj_r in H. by apply (string_app_inj_r ":") in H.
Qed.

Lemma elem_of_add_files (cats : list CategoryDescriptor) (loaded : gset string) (x : string) :
  x ∈ add_files cats loaded <-> x ∈ loaded \/ x ∈ file <$> cats.
Proof.
  unfold add_files. revert loaded.
  induction cats as [|cat cats IH]; intros loaded; simpl.
  - rewrite elem_of_nil. tauto.
  - rewrite IH, elem_of_union, elem_of_singleton, elem_of_cons. tauto.
Qed.

Lemma unloaded_all (loaded : gset string) (cats : list CategoryDescriptor) :
  (forall cat, cat ∈ cats -> file cat ∉ loaded) -> unloaded loaded cats = cats.
Proof.
  intros H. unfold unloaded.
  induction cats as [|cat cats IH]; [done|].
  rewrite filter_cons_True by (apply H; left).
  f_equal. apply IH. intros c Hc. apply H. by right.
Qed.

(** The files that the loop has marked do not come back. *)
Lemma unloaded_idem (loaded : gset string) (cats : list CategoryDescriptor) :
  unloaded loaded (unloaded loaded cats) = unloaded loaded cats.
Proof.
  apply unloaded_all. intros cat Hcat. unfold unloaded in Hcat.
  by apply list_elem_of_filter in Hcat as [? _].
Qed.

Lemma unloaded_ext (loaded1 loaded2 : gset string) (cats : list CategoryDescriptor) :
  (forall cat, cat ∈ cats -> file cat ∈ loaded1 <-> file cat ∈ loaded2) ->
  unloaded loaded1 cats = unloaded loaded2 cats.
Proof.
  unfold unloaded. induction cats as [|cat cats IH]; intros H; [done|].
  rewrite !filter_cons.
  rewrite IH by (intros c Hc; apply H; by right).
  pose proof (H cat ltac:(left)) as Hcat.
  destruct (decide (file cat ∉ loaded1)), (decide (file cat ∉ loaded2)); tauto.
Qed.

Lemma unloaded_app (loaded : gset string) (cats1 cats2 : list CategoryDescriptor) :
  unloaded loaded (cats1 ++ cats2) = unloaded loaded cats1 ++ unloaded loaded cats2.
Proof. unfold unloaded. apply filter_app. Qed.

Lemma elem_of_unloaded (loaded : gset string) (cats : list CategoryDescriptor)
    (cat : CategoryDescriptor) :
  cat ∈ unloaded loaded cats <-> (file cat ∉ loaded) /\ (cat ∈ cats).
Proof. unfold unloaded. by rewrite list_elem_of_filter. Qed.

(** The batches are the list cut in consecutive pieces. *)
Lemma batches_from_concat {A} (fuel : nat) (l : list A) (i : nat) :
  (length l - i <= fuel)%nat ->
  concat (batches_from fuel l i) = drop i l.
Proof.
  revert i. induction fuel as [|fuel IH]; intros i Hfuel; simpl.
  - symmetry. apply drop_ge. lia.
  - destruct (Nat.ltb_spec i (length l)) as [Hlt|Hge].
    + simpl. rewrite IH by (unfold BATCH_SIZE; lia).
      unfold slice. replace (i + BATCH_SIZE - i)%nat with BATCH_SIZE by lia.
      rewrite <- drop_drop. apply take_drop.
    + symmetry. by apply drop_ge.
Qed.

Lemma make_batches_concat {A} (l : list A) : concat (make_batches l) = l.
Proof. unfold make_batches. rewrite batches_from_concat; [done | lia]. Qed.

Lemma elem_of_take_list {A} (x : A) (n : nat) (l : list A) : x ∈ take n l -> x ∈ l.
Proof. intros H. rewrite <- (take_drop n l). apply elem_of_app. by left. Qed.

Lemma elem_of_drop_list {A} (x : A) (n : nat) (l : list A) : x ∈ drop n l -> x ∈ l.
Proof. intros H. rewrite <- (take_drop n l). apply elem_of_app. by right. Qed.

Lemma bind_modify {B} (f : Store -> Store) (k : unit -> M B) (st : Store) :
  (modify f ≫= k) st = k tt (f st).
Proof. reflexivity. Qed.

Lemma bind_ret {A B} (a : A) (k : A -> M B) (st : Store) :
  (mret a ≫= k) st = k a st.
Proof. reflexivity. Qed.

Lemma bind_ok {A B} (m : M A) (k : A -> M B) (st st' : Store) (a : A) :
  m st = (Ok a, st') -> (m ≫= k) st = k a st'.
Proof. intros H. unfold mbind, M_bind. by rewrite H. Qed.

Lemma add_files_app (cats1 cats2 : list CategoryDescriptor) (loaded : gset string) :
  add_files (cats1 ++ cats2) loaded = add_files cats2 (add_files cats1 loaded).
Proof. unfold add_files. apply foldl_app. Qed.

(** The files that are marked once the first three categories are. *)
Lemma add_files_empty (cats : list CategoryDescriptor) :
  add_files cats ∅ = list_to_set (file <$> cats).
Proof.
  apply set_eq. intros x. rewrite elem_of_add_files, elem_of_list_to_set.
  split; [intros [Hx|Hx]; [by apply elem_of_empty in Hx | done] | by right].
Qed.

Lemma filter_ext_elem {A} (P Q : A -> Prop) `{!forall x, Decision (P x)}
    `{!forall x, Decision (Q x)} (l : list A) :
  (forall x, x ∈ l -> P x <-> Q x) -> filter P l = filter Q l.
Proof.
  induction l as [|x l IH]; intros Hl; [done|].
  rewrite !filter_cons. rewrite IH by (intros y Hy; apply Hl; by right).
  pose proof (Hl x ltac:(left)).
  destruct (decide (P x)), (decide (Q x)); tauto.
Qed.

Lemma filter_other_files (cats1 cats2 : list CategoryDescriptor) :
  (forall x, x ∈ file <$> cats1 -> x ∉ file <$> cats2) ->
  filter (fun cat => file cat ∉ file <$> cats1) cats2 = cats2.
Proof.
  induction cats2 as [|cat rest IH]; intros Hdisj; [done|].
  rewrite filter_cons_True.
  - f_equal. apply IH. intros x Hx Hin. apply (Hdisj x Hx). by right.
  - intros Hin. apply (Hdisj _ Hin). left.
Qed.

Section Orchestrator.

Variable SERIES_CONFIG : gmap string SeriesConfig.
Variable buildImageUrl : jsval -> jsval.
Variable fetch : string -> FetchResult.
Variable isWorkerAvailable : bool.
Variable decodeData : jsval -> JsError + string.
Variable parseCategories : string -> JsError + list CategoryDescriptor.
Variable workerCategories : jsval -> JsError + list CategoryDescriptor.
Variable parsePayload : string -> JsError + Decoded.
Variable workerPayload : jsval -> JsError + Decoded.

Local Abbreviation loadSeriesIndex :=
  (loadSeriesIndex SERIES_CONFIG fetch isWorkerAvailable decodeData
     parseCategories workerCategories).
Local Abbreviation loadCategory :=
  (loadCategory SERIES_CONFIG buildImageUrl fetch isWorkerAvailable decodeData
     parsePayload workerPayload).
Local Abbreviation load_batch :=
  (load_batch SERIES_CONFIG buildImageUrl fetch isWorkerAvailable decodeData
     parsePayload workerPayload).
Local Abbreviation loadRemainingCategories :=
  (loadRemainingCategories SERIES_CONFIG buildImageUrl fetch isWorkerAvailable
     decodeData parsePayload workerPayload).
Local Abbreviation run_background :=
  (run_background SERIES_CONFIG buildImageUrl fetch isWorkerAvailable
     decodeData parsePayload workerPayload).
Local Abbreviation initSeries :=
  (initSeries SERIES_CONFIG buildImageUrl fetch isWorkerAvailable decodeData
     parseCategories workerCategories parsePayload workerPayload).
Local Abbreviation loadAllCategories :=
  (loadAllCategories SERIES_CONFIG buildImageUrl fetch isWorkerAvailable decodeData
     parseCategories workerCategories parsePayload workerPayload).

Lemma loadCategory_hit (seriesId categoryFile : string) (st : Store) (cached : list Item) :
  categoryCache st !! cacheKey seriesId categoryFile = Some cached ->
  loadCategory seriesId categoryFile st = (Ok cached, st).
Proof. intros H. unfold loadCategory. rewrite bind_gets. by rewrite H. Qed.

(** A load keeps what the other loads resolve to. *)
Lemma loadCategory_keeps_result (seriesId f0 f : string) (st st' : Store) r l :
  loadCategory seriesId f0 st = (r, st') ->
  (loadCategory seriesId f st).1 = Ok l ->
  (loadCategory seriesId f st').1 = Ok l.
Proof.
  intros H Hf.
  destruct (loadCategory_cache _ _ _ _ _ _ _ _ _ _ _ _ H) as [Hc|(l0 & -> & Hc)].
  - rewrite <- Hf. apply loadCategory_result. by rewrite Hc.
  - destruct (decide (f = f0)) as [->|Hne].
    + rewrite H in Hf. simpl in Hf. injection Hf as ->.
      rewrite (loadCategory_hit seriesId f0 st' l); [done|].
      rewrite Hc. apply lookup_insert_eq.
    + rewrite <- Hf. apply loadCategory_result. rewrite Hc.
      apply lookup_insert_ne. intros Hk. apply cacheKey_file_inj in Hk. done.
Qed.

(** [Promise.all] over category loads touches the caches and the logs
    only, whether it resolves or rejects. *)
Lemma promise_all_frame (seriesId : string) (cats : list CategoryDescriptor)
    (st st' : Store) r :
  promise_all (fun cat => loadCategory seriesId (file cat)) cats st = (r, st') ->
  view st' = view st /\ seriesIndexCache st' = seriesIndexCache st.
Proof.
  revert st st' r. induction cats as [|cat cats IH]; intros st st' r H; simpl in H.
  - unfold_M. by simplify_eq.
  - destruct (loadCategory seriesId (file cat) st) as [r1 st1] eqn:H1.
    apply loadCategory_inv in H1 as (Hv1 & Hi1 & _).
    destruct (promise_all _ cats st1) as [r2 st2] eqn:H2.
    apply IH in H2 as [Hv2 Hi2].
    assert (st' = st2) as -> by (destruct r1, r2; simpl in H; congruence).
    split; congruence.
Qed.

(** When every load resolves, so does [Promise.all], to the results in the
    order of the list. *)
Lemma promise_all_resolves (seriesId : string) (items_of : string -> list Item)
    (cats : list CategoryDescriptor) (st : Store) :
  (forall cat, cat ∈ cats ->
     (loadCategory seriesId (file cat) st).1 = Ok (items_of (file cat))) ->
  exists st',
    promise_all (fun cat => loadCategory seriesId (file cat)) cats st
      = (Ok ((fun cat => items_of (file cat)) <$> cats), st')
    /\ view st' = view st
    /\ seriesIndexCache st' = seriesIndexCache st
    /\ (forall f l, (loadCategory seriesId f st).1 = Ok l ->
                    (loadCategory seriesId f st').1 = Ok l).
Proof.
  revert st. induction cats as [|cat cats IH]; intros st Hok; simpl.
  - exists st. by unfold_M.
  - destruct (loadCategory seriesId (file cat) st) as [r1 st1] eqn:H1.
    pose proof (Hok cat ltac:(left)) as Hcat. rewrite H1 in Hcat. simpl in Hcat.
    subst r1.
    pose proof (fun f l => loadCategory_keeps_result seriesId (file cat) f st st1 _ l H1)
      as Hkeep.
    apply loadCategory_inv in H1 as (Hv1 & Hi1 & _).
    destruct (IH st1) as (st2 & -> & Hv2 & Hi2 & Hkeep2).
    { intros c Hc. apply Hkeep, Hok. by right. }
    exists st2. split_and!; [done | congruence | congruence |].
    intros f l Hf. by apply Hkeep2, Hkeep.
Qed.

(** *** A failing batch *)

Lemma loadCategory_keeps_failure (seriesId f0 f : string) (st st' : Store) r e :
  loadCategory seriesId f0 st = (r, st') ->
  (loadCategory seriesId f st).1 = Throw e ->
  (loadCategory seriesId f st').1 = Throw e.
Proof.
  intros H Hf.
  destruct (loadCategory_cache _ _ _ _ _ _ _ _ _ _ _ _ H) as [Hc|(l0 & -> & Hc)].
  - rewrite <- Hf. apply loadCategory_result. by rewrite Hc.
  - destruct (decide (f = f0)) as [->|Hne].
    + rewrite H in Hf. done.
    + rewrite <- Hf. apply loadCategory_result. rewrite Hc.
      apply lookup_insert_ne. intros Hk. apply cacheKey_file_inj in Hk. done.
Qed.

(** [Promise.all] rejects as soon as one of the loads does. *)
Lemma promise_all_rejects (seriesId : string) (cats : list CategoryDescriptor)
    (cat : CategoryDescriptor) (st : Store) e :
  cat ∈ cats ->
  (loadCategory seriesId (file cat) st).1 = Throw e ->
  exists e' st',
    promise_all (fun cat => loadCategory seriesId (file cat)) cats st = (Throw e', st').
Proof.
  revert st. induction cats as [|c cats IH]; intros st Hin Hfail.
  - by apply elem_of_nil in Hin.
  - simpl. destruct (loadCategory seriesId (file c) st) as [[l|e1] st1] eqn:H1.
    + apply elem_of_cons in Hin as [->|Hin].
      * rewrite H1 in Hfail. done.
      * destruct (IH st1 Hin) as (e' & st' & ->); [|by eauto].
        by eapply loadCategory_keeps_failure.
    + eauto.
Qed.

(** C1, as the code has it.  When a category load of a batch fails, the
    failure is logged with [console.warn], the batch as a whole adds
    nothing to the merged list and marks no category as loaded, and the
    loop goes on with the batches that follow. *)
Theorem load_batch_failure (seriesId : string) (batch : list CategoryDescriptor)
    (cat : CategoryDescriptor) (st : Store) e :
  cat ∈ unloaded (loadedCategories st) batch ->
  (loadCategory seriesId (file cat) st).1 = Throw e ->
  exists e' st',
    load_batch seriesId batch st = (Ok tt, st')
    /\ last (console st') = Some (mkLog LogWarn "Failed to load batch:" e')
    /\ wallpapers st' = wallpapers st
    /\ loadedCategories st' = loadedCategories st
    /\ forall rest,
         for_of (load_batch seriesId) (batch :: rest) st
         = for_of (load_batch seriesId) rest st'.
Proof.
  intros Hin Hfail.
  destruct (promise_all_rejects seriesId _ cat st e Hin Hfail) as (e' & st1 & Hall).
  pose proof (promise_all_frame _ _ _ _ _ Hall) as [Hview _].
  exists e', (log_console (mkLog LogWarn "Failed to load batch:" e') st1).
  assert (Hbatch : load_batch seriesId batch st
            = (Ok tt, log_console (mkLog LogWarn "Failed to load batch:" e') st1)).
  { unfold load_batch. rewrite bind_gets.
    destruct (unloaded (loadedCategories st) batch) as [|c cs] eqn:E.
    { by apply elem_of_nil in Hin. }
    change (length (c :: cs) =? 0)%nat with false. cbv iota.
    unfold try_catch. unfold mbind at 1, M_bind at 1. rewrite Hall.
    reflexivity. }
  unfold view in Hview. simpl.
  split_and!; [done | by rewrite last_snoc | congruence | congruence |].
  intros rest. simpl. unfold mbind at 1, M_bind at 1. by rewrite Hbatch.
Qed.

(** A turn of the loop never throws. *)
Lemma load_batch_resolves (seriesId : string) (batch : list CategoryDescriptor)
    (st : Store) :
  exists st', load_batch seriesId batch st = (Ok tt, st').
Proof.
  unfold load_batch. rewrite bind_gets.
  destruct (length (unloaded (loadedCategories st) batch) =? 0)%nat; [by eexists|].
  unfold try_catch, mbind, M_bind.
  destruct (promise_all _ _ st) as [[ls|e] st1]; by eexists.
Qed.

(** *** Unknown series *)

(** C3, as the code has it.  For a series id that has no entry in
    [SERIES_CONFIG], and none in the index cache, [initSeries] resolves: it
    does not reject.  A call that the guard at its head skips changes
    nothing.  Every other call leaves a non-empty message in [error] and an
    empty merged list, and issues no request: the [Invalid series] error of
    [loadSeriesIndex] is caught or, for an id that names a property of
    [Object.prototype], the [TypeError] of reading the categories of what
    the read of the cache gave. *)
Theorem initSeries_unknown_series (seriesId : string) (forceRefresh : bool)
    (st : Store) :
  SERIES_CONFIG !! seriesId = None ->
  seriesIndexCache st !! seriesId = None ->
  exists st',
    initSeries seriesId forceRefresh st = (Ok tt, st')
    /\ (already_loaded seriesId forceRefresh st = true -> st' = st)
    /\ (already_loaded seriesId forceRefresh st = false ->
          (exists msg, error st' = Some msg /\ msg ≠ "")
          /\ wallpapers st' = []
          /\ loading st' = false
          /\ fetchLog st' = fetchLog st
          /\ (inherited seriesId = false ->
                error st' = Some ("Invalid series: " +:+ seriesId))).
Proof.
  intros Hcfg Hcache.
  unfold initSeries. rewrite bind_gets.
  destruct (already_loaded seriesId forceRefresh st) eqn:Hguard.
  { exists st. by split_and!. }
  unfold loadSeriesIndex. repeat unfold_M. simpl.
  unfold js_get. rewrite Hcache, Hcfg.
  destruct (inherited seriesId) eqn:Hinh; simpl.
  - eexists. split; [reflexivity|]. split; [done|]. intros _.
    split_and!; try reflexivity; [|done].
    eexists. split; [reflexivity|]. unfold message_or. simpl. discriminate.
  - eexists. split; [reflexivity|]. split; [done|]. intros _.
    split_and!; try reflexivity.
    eexists. split; [reflexivity|]. unfold message_or. simpl. discriminate.
Qed.

(** *** [loadAllCategories] before the index is cached *)

(** Without a cached index, [loadAllCategories] loads the index and
    returns: no category is loaded, the merged list is left as it is. *)
Lemma loadAllCategories_uncached (seriesId : string) (st st' : Store) r :
  js_get no_properties (seriesIndexCache st) seriesId = None ->
  loadAllCategories seriesId st = (r, st') ->
  view st' = view st /\ categoryCache st' = categoryCache st.
Proof.
  intros Hc H. unfold loadAllCategories in H. rewrite bind_gets, Hc in H.
  unfold mbind, M_bind in H.
  destruct (loadSeriesIndex seriesId st) as [r1 st1] eqn:H1.
  apply loadSeriesIndex_inv in H1 as (Hv & Hcat & _).
  assert (st' = st1) as -> by (destruct r1; unfold mret, M_ret in H; congruence).
  by split.
Qed.

(** *** Background loading when every load succeeds *)

Section Completeness.

Variable seriesId : string.
(** what the load of a category file resolves to *)
Variable items_of : string -> list Item.

Local Abbreviation loads_ok := (loads_ok (loadCategory seriesId) items_of).
Local Abbreviation merged := (merged items_of).

Lemma merged_app (cats1 cats2 : list CategoryDescriptor) :
  merged (cats1 ++ cats2) = merged cats1 ++ merged cats2.
Proof. unfold merged. by rewrite fmap_app, concat_app. Qed.

Lemma loads_ok_keep (cats : list CategoryDescriptor) (st st' : Store) :
  (forall f l, (loadCategory seriesId f st).1 = Ok l ->
               (loadCategory seriesId f st').1 = Ok l) ->
  loads_ok cats st -> loads_ok cats st'.
Proof. intros Hkeep Hok cat Hcat. by apply Hkeep, Hok. Qed.

Lemma load_batch_loads (batch : list CategoryDescriptor) (st : Store) :
  loads_ok batch st ->
  (forall cat, cat ∈ batch -> file cat ∉ loadedCategories st) ->
  exists st',
    load_batch seriesId batch st = (Ok tt, st')
    /\ wallpapers st' = wallpapers st ++ merged batch
    /\ loadedCategories st' = add_files batch (loadedCategories st)
    /\ flags st' = flags st
    /\ seriesIndexCache st' = seriesIndexCache st
    /\ (forall f l, (loadCategory seriesId f st).1 = Ok l ->
                    (loadCategory seriesId f st').1 = Ok l).
Proof.
  intros Hok Hnew. unfold load_batch. rewrite bind_gets.
  rewrite (unloaded_all _ _ Hnew).
  destruct batch as [|c cs].
  { exists st. simpl. unfold merged. simpl. rewrite app_nil_r. by split_and!. }
  change (length (c :: cs) =? 0)%nat with false. cbv iota.
  destruct (promise_all_resolves seriesId items_of (c :: cs) st Hok)
    as (st1 & Hall & Hview & Hidx & Hkeep).
  unfold try_catch. rewrite (bind_ok _ _ _ _ _ Hall).
  rewrite !bind_modify. unfold sleep, mret, M_ret.
  eexists. split; [reflexivity|].
  injection Hview as Hw Hl ? ? ? ? ? ?.
  split_and!.
  - simpl. by rewrite Hw.
  - simpl. by rewrite Hl.
  - unfold flags. simpl. congruence.
  - exact Hidx.
  - intros f l Hfl. rewrite <- (Hkeep f l Hfl). by apply loadCategory_result.
Qed.

(** A turn of the loop loads the categories of the batch that are not
    marked loaded, and marks them. *)
Lemma load_batch_loads_unloaded (batch : list CategoryDescriptor) (st : Store) :
  loads_ok batch st ->
  exists st',
    load_batch seriesId batch st = (Ok tt, st')
    /\ wallpapers st' = wallpapers st ++ merged (unloaded (loadedCategories st) batch)
    /\ loadedCategories st'
       = add_files (unloaded (loadedCategories st) batch) (loadedCategories st)
    /\ flags st' = flags st
    /\ seriesIndexCache st' = seriesIndexCache st
    /\ (forall f l, (loadCategory seriesId f st).1 = Ok l ->
                    (loadCategory seriesId f st').1 = Ok l).
Proof.
  intros Hok.
  assert (Hsame : load_batch seriesId batch st
                  = load_batch seriesId (unloaded (loadedCategories st) batch) st).
  { unfold load_batch. rewrite !bind_gets. by rewrite unloaded_idem. }
  rewrite Hsame. apply load_batch_loads.
  - intros cat Hcat. apply Hok. by apply elem_of_unloaded in Hcat as [_ ?].
  - intros cat Hcat. by apply elem_of_unloaded in Hcat as [? _].
Qed.

Lemma for_of_load_batch (batches : list (list CategoryDescriptor)) (st : Store) :
  loads_ok (concat batches) st ->
  NoDup (file <$> concat batches) ->
  exists st',
    for_of (load_batch seriesId) batches st = (Ok tt, st')
    /\ wallpapers st'
       = wallpapers st ++ merged (unloaded (loadedCategories st) (concat batches))
    /\ loadedCategories st'
       = add_files (unloaded (loadedCategories st) (concat batches)) (loadedCategories st)
    /\ flags st' = flags st
    /\ seriesIndexCache st' = seriesIndexCache st
    /\ (forall f l, (loadCategory seriesId f st).1 = Ok l ->
                    (loadCategory seriesId f st').1 = Ok l).
Proof.
  revert st. induction batches as [|b bs IH]; intros st Hok Hdup.
  { exists st. simpl. unfold merged. simpl. rewrite app_nil_r. by split_and!. }
  simpl in Hok, Hdup. rewrite fmap_app in Hdup.
  apply NoDup_app in Hdup as (_ & Hdisj & Hdup).
  destruct (load_batch_loads_unloaded b st) as (st1 & Hb & Hw1 & Hl1 & Hf1 & Hi1 & Hk1).
  { intros cat Hcat. apply Hok, elem_of_app. by left. }
  destruct (IH st1) as (st2 & Hbs & Hw2 & Hl2 & Hf2 & Hi2 & Hk2).
  { intros cat Hcat. apply Hk1, Hok, elem_of_app. by right. }
  { exact Hdup. }
  assert (Hrest : unloaded (loadedCategories st1) (concat bs)
                  = unloaded (loadedCategories st) (concat bs)).
  { apply unloaded_ext. intros cat Hcat. rewrite Hl1, elem_of_add_files.
    split; [|by left]. intros [Hin|Hin]; [done|].
    apply list_elem_of_fmap in Hin as (c & Hfile & Hc).
    apply elem_of_unloaded in Hc as [_ Hc].
    exfalso. apply (Hdisj (file c)).
    - by apply list_elem_of_fmap_2.
    - rewrite <- Hfile. by apply list_elem_of_fmap_2. }
  rewrite Hrest in Hw2, Hl2.
  exists st2. simpl. rewrite (bind_ok _ _ _ _ _ Hb).
  split_and!.
  - exact Hbs.
  - by rewrite Hw2, Hw1, unloaded_app, merged_app, app_assoc.
  - by rewrite Hl2, Hl1, unloaded_app, add_files_app.
  - congruence.
  - congruence.
  - intros f l Hf. by apply Hk2, Hk1.
Qed.

(** The background task loads, in order, the categories that are not
    marked loaded when it starts. *)
Lemma loadRemainingCategories_loads (cats : list CategoryDescriptor) (st : Store) :
  loads_ok cats st ->
  NoDup (file <$> cats) ->
  exists st',
    loadRemainingCategories seriesId cats st = (Ok tt, st')
    /\ wallpapers st' = wallpapers st ++ merged (unloaded (loadedCategories st) cats)
    /\ loadedCategories st'
       = add_files (unloaded (loadedCategories st) cats) (loadedCategories st)
    /\ isBackgroundLoading st' = false
    /\ initialLoadedCount st' = length (wallpapers st')
    /\ background st' = background st
    /\ loading st' = loading st
    /\ error st' = error st
    /\ currentLoadedSeries st' = currentLoadedSeries st
    /\ seriesIndexCache st' = seriesIndexCache st.
Proof.
  intros Hok Hdup. unfold loadRemainingCategories.
  destruct (for_of_load_batch (make_batches cats) st)
    as (st1 & Hloop & Hw & Hl & Hf & Hi & _).
  { by rewrite make_batches_concat. }
  { by rewrite make_batches_concat. }
  rewrite make_batches_concat in Hw, Hl.
  rewrite (bind_ok _ _ _ _ _ Hloop), bind_modify, bind_gets.
  eexists. split; [reflexivity|].
  unfold flags in Hf. simpl. split_and!; congruence.
Qed.

End Completeness.

(** The first phase of [initSeries]: the first three categories of the
    manifest are loaded and merged in manifest order, and the rest is left
    to a background task. *)
Lemma initSeries_initial_window (seriesId : string) (forceRefresh : bool)
    (st : Store) (indexData : Document) (cats : list CategoryDescriptor)
    (items_of : string -> list Item) :
  already_loaded seriesId forceRefresh st = false ->
  (loadSeriesIndex seriesId st).1 = Ok indexData ->
  categories indexData = Some cats ->
  loads_ok (loadCategory seriesId) items_of cats st ->
  exists st',
    initSeries seriesId forceRefresh st = (Ok tt, st')
    /\ wallpapers st' = merged items_of (take 3 cats)
    /\ loadedCategories st' = add_files (take 3 cats) ∅
    /\ initialLoadedCount st' = length (wallpapers st')
    /\ isBackgroundLoading st' = bool_decide (drop 3 cats ≠ [])
    /\ background st'
       = background st ++ (if decide (drop 3 cats = []) then []
                           else [(seriesId, drop 3 cats)])
    /\ loading st' = false
    /\ error st' = None
    /\ currentLoadedSeries st' = seriesId
    /\ loads_ok (loadCategory seriesId) items_of cats st'.
Proof.
  intros Hguard Hidx Hcats Hok.
  unfold initSeries. rewrite bind_gets, Hguard. cbv iota.
  rewrite !bind_modify.
  match goal with |- context [try_finally _ _ ?s] => set (st_r := s) end.
  unfold try_finally, try_catch.
  destruct (loadSeriesIndex seriesId st_r) as [r1 st1] eqn:H1.
  assert (r1 = Ok indexData) as ->.
  { rewrite <- Hidx. change r1 with (r1, st1).1. rewrite <- H1.
    by apply loadSeriesIndex_result. }
  pose proof (loadSeriesIndex_inv _ _ _ _ _ _ _ _ _ _ H1) as (Hv1 & Hc1 & _).
  rewrite (bind_ok _ _ _ _ _ H1). unfold categories_of. rewrite Hcats, bind_ret.
  assert (Hok1 : loads_ok (loadCategory seriesId) items_of cats st1).
  { intros cat Hcat. rewrite <- (Hok cat Hcat).
    apply loadCategory_result. by rewrite Hc1. }
  destruct (promise_all_resolves seriesId items_of (take 3 cats) st1)
    as (st2 & Hall & Hv2 & Hi2 & Hkeep).
  { intros cat Hcat. apply Hok1. by eapply elem_of_take_list. }
  rewrite (bind_ok _ _ _ _ _ Hall).
  rewrite !bind_modify, bind_gets, bind_modify.
  assert (Hflags : flags st2 = flags st_r /\ wallpapers st2 = wallpapers st_r
                   /\ loadedCategories st2 = loadedCategories st_r).
  { unfold view in Hv1, Hv2. split_and!; congruence. }
  destruct Hflags as (Hf & Hw & Hl). unfold flags in Hf. simpl in Hf, Hw, Hl.
  injection Hf as Hcur Hload Herr Hbgl Hcount Hbg.
  assert (Hok2 : forall s, categoryCache s = categoryCache st2 ->
                   loads_ok (loadCategory seriesId) items_of cats s).
  { intros s Hs cat Hcat. rewrite <- (Hkeep _ _ (Hok1 cat Hcat)).
    apply loadCategory_result. by rewrite Hs. }
  destruct (drop 3 cats) as [|c rest] eqn:Hrem.
  - simpl. unfold mret, M_ret, modify. eexists. split; [reflexivity|].
    simpl. rewrite app_nil_r, Hl, Hbg.
    split_and!; try done. by apply Hok2.
  - change (0 <? length (c :: rest))%nat with true. cbv iota.
    unfold spawn. rewrite bind_modify. unfold modify.
    eexists. split; [reflexivity|].
    simpl. rewrite Hl, Hbg.
    split_and!; try done. by apply Hok2.
Qed.


End Orchestrator.

(** ** The properties on the concrete deployment *)

(** Closes an equation between closed terms by evaluation. *)
Ltac vm_refl :=
  match goal with
  | |- ?a = ?b => vm_cast_no_check (@eq_refl _ b)
  end.

(** C1 as stated fails.  In the background batch [d.json; e.json; f.json]
    of series desktop the shard [e.json] is missing.  The loads of [d.json]
    and [f.json] succeed, and their lists reach the category cache, but
    none of their items is appended to the merged list and none of the
    three files is marked loaded. *)
Lemma load_batch_failure_counterexample :
  let batch := Example.category <$> ["d.json"; "e.json"; "f.json"] in
  let st' := (Example.load_batch "desktop" batch Example.desktop_activated).2 in
  (Example.loadCategory "desktop" "d.json" Example.desktop_activated).1
    = Ok [transformWallpaperUrls Example.buildImageUrl
            (Example.item "d1" "/desktop/d1.jpg")]
  /\ (Example.loadCategory "desktop" "e.json" Example.desktop_activated).1
    = Throw (Error "HTTP error! status: 404")
  /\ Example.ids Example.desktop_activated = [JStr "a1"; JStr "b1"; JStr "c1"]
  /\ Example.ids st' = [JStr "a1"; JStr "b1"; JStr "c1"]
  /\ categoryCache st' !! cacheKey "desktop" "d.json"
    = Some [transformWallpaperUrls Example.buildImageUrl
              (Example.item "d1" "/desktop/d1.jpg")]
  /\ elements (loadedCategories st') = elements (loadedCategories Example.desktop_activated).
Proof. intros batch st'. split_and!; vm_refl. Qed.

Lemma load_batch_failure_witness :
  exists e' st',
    Example.load_batch "desktop" (Example.category <$> ["d.json"; "e.json"; "f.json"])
      Example.desktop_activated = (Ok tt, st')
    /\ last (console st') = Some (mkLog LogWarn "Failed to load batch:" e')
    /\ wallpapers st' = wallpapers Example.desktop_activated
    /\ loadedCategories st' = loadedCategories Example.desktop_activated
    /\ forall rest,
         for_of (Example.load_batch "desktop")
           ((Example.category <$> ["d.json"; "e.json"; "f.json"]) :: rest)
           Example.desktop_activated
         = for_of (Example.load_batch "desktop") rest st'.
Proof.
  apply (load_batch_failure Example.SERIES_CONFIG Example.buildImageUrl Example.fetch
           Example.isWorkerAvailable Example.decodeData Example.parsePayload
           Example.workerPayload "desktop"
           (Example.category <$> ["d.json"; "e.json"; "f.json"])
           (Example.category "e.json") Example.desktop_activated
           (Error "HTTP error! status: 404")).
  - replace (unloaded (loadedCategories Example.desktop_activated)
               (Example.category <$> ["d.json"; "e.json"; "f.json"]))
      with (Example.category <$> ["d.json"; "e.json"; "f.json"])
      by vm_refl.
    simpl. right. left.
  - vm_refl.
Defined.

(** C3 as stated fails: for the unknown series id [tablet], [initSeries]
    does not reject. *)
Lemma initSeries_unknown_series_counterexample :
  Example.SERIES_CONFIG !! "tablet" = None
  /\ (Example.initSeries "tablet" false initial_store).1 = Ok tt.
Proof. split; reflexivity. Qed.

Lemma initSeries_unknown_series_witness :
  exists st',
    Example.initSeries "tablet" false initial_store = (Ok tt, st')
    /\ (exists msg, error st' = Some msg /\ msg ≠ "")
    /\ wallpapers st' = []
    /\ loading st' = false
    /\ fetchLog st' = []
    /\ error st' = Some "Invalid series: tablet".
Proof.
  destruct (initSeries_unknown_series Example.SERIES_CONFIG Example.buildImageUrl
              Example.fetch Example.isWorkerAvailable Example.decodeData
              Example.parseCategories Example.workerCategories Example.parsePayload
              Example.workerPayload "tablet" false initial_store eq_refl eq_refl)
    as (st' & Hrun & _ & Hran).
  destruct (Hran eq_refl) as (Hmsg & Hw & Hl & Hlog & Hinvalid).
  exists st'.
  split_and!; [exact Hrun | exact Hmsg | exact Hw | exact Hl | exact Hlog
              | exact (Hinvalid eq_refl)].
Defined.

(** A series id that names a property of [Object.prototype] is not told
    to be invalid: the read of the index cache gives a value, no request is
    issued, and [error] holds the message of the [TypeError] that reading
    the categories of that value throws. *)
Lemma initSeries_inherited_name :
  let st' := (Example.initSeries "constructor" false initial_store).2 in
  Example.SERIES_CONFIG !! "constructor" = None
  /\ (Example.initSeries "constructor" false initial_store).1 = Ok tt
  /\ error st' = Some "Cannot read properties of undefined"
  /\ wallpapers st' = []
  /\ fetchLog st' = [].
Proof. intros st'. split_and!; reflexivity. Qed.

(** Why the guard matters.  Series desktop is activated, then the unknown
    series tablet, and then the background task of desktop runs: it appends
    to the list that the failed activation had emptied.  A further
    [initSeries('tablet')] is skipped by the guard, and leaves a merged list
    that is not empty. *)
Lemma initSeries_unknown_series_skipped :
  let activate :=
    initSeries Example.SERIES_CONFIG Example.buildImageUrl Example.healthy
      Example.isWorkerAvailable Example.decodeData Example.parseCategories
      Example.workerCategories Example.parsePayload Example.workerPayload in
  let background :=
    run_background Example.SERIES_CONFIG Example.buildImageUrl Example.healthy
      Example.isWorkerAvailable Example.decodeData Example.parsePayload
      Example.workerPayload in
  let st1 := (activate "desktop" false initial_store).2 in
  let st2 := (activate "tablet" false st1).2 in
  let st3 := (background st2).2 in
  (wallpapers st2, error st2) = ([], Some "Invalid series: tablet")
  /\ (already_loaded "tablet" false st3, Example.ids st3)
     = (true, [JStr "/data/desktop/d.json"])
  /\ Example.ids (activate "tablet" false st3).2 = [JStr "/data/desktop/d.json"].
Proof. intros activate background st1 st2 st3. split_and!; vm_refl. Qed.

(** C4 on a failing input.  The index of series avatar is not cached; its
    manifest has the single category [x.json], which loads.  After
    [loadAllCategories('avatar')] has resolved the index is cached, one
    request has been issued, and the category is neither loaded nor merged. *)
Theorem loadAllCategories_index_not_cached :
  let st' := (Example.loadAllCategories "avatar" initial_store).2 in
  (Example.loadAllCategories "avatar" initial_store).1 = Ok tt
  /\ seriesIndexCache st' !! "avatar" = Some (Example.manifest ["x.json"])
  /\ (Example.loadCategory "avatar" "x.json" st').1
     = Ok [transformWallpaperUrls Example.buildImageUrl
             (Example.item "x1" "/avatar/x1.jpg")]
  /\ wallpapers st' = []
  /\ elements (loadedCategories st') = []
  /\ categoryCache st' !! cacheKey "avatar" "x.json" = None
  /\ fetchLog st' = ["/data/avatar/index.json"].
Proof. intros st'. split_and!; vm_refl. Qed.

(** A second call, with the index now cached, does load the category. *)
Lemma loadAllCategories_second_call :
  let st1 := (Example.loadAllCategories "avatar" initial_store).2 in
  let st2 := (Example.loadAllCategories "avatar" st1).2 in
  Example.ids st2 = [JStr "x1"] /\ elements (loadedCategories st2) = ["x.json"].
Proof. intros st1 st2. split; vm_refl. Qed.



Lemma loadSeriesIndex_cached_witness :
  let indexData :=
    Example.manifest ["a.json"; "b.json"; "c.json"; "d.json"; "e.json"; "f.json"] in
  let st1 := (Example.loadSeriesIndex "desktop" initial_store).2 in
  Example.loadSeriesIndex "desktop" initial_store = (Ok indexData, st1)
  /\ (length (fetchLog st1) <= length (fetchLog initial_store) + 1)%nat
  /\ Example.loadSeriesIndex "desktop" st1 = (Ok indexData, st1).
Proof.
  intros indexData st1.
  assert (H : Example.loadSeriesIndex "desktop" initial_store = (Ok indexData, st1))
    by vm_refl.
  split; [exact H|].
  exact (loadSeriesIndex_cached Example.SERIES_CONFIG Example.fetch
           Example.isWorkerAvailable Example.decodeData Example.parseCategories
           Example.workerCategories "desktop" initial_store st1 indexData H).
Defined.

(** A call that fails caches nothing: the next call asks the network again. *)
Lemma loadSeriesIndex_failure_not_cached :
  let load := loadSeriesIndex Example.SERIES_CONFIG Example.offline
                Example.isWorkerAvailable Example.decodeData Example.parseCategories
                Example.workerCategories "desktop" in
  let st1 := (load initial_store).2 in
  (load initial_store).1 = Throw (TypeError "Failed to fetch")
  /\ seriesIndexCache st1 = ∅
  /\ fetchLog (load st1).2 = ["/data/desktop/index.json"; "/data/desktop/index.json"].
Proof. intros load st1. split_and!; vm_refl. Qed.

Lemma loadCategory_decode_failure_witness :
  exists st',
    Example.loadCategory "mobile" "m4.json" initial_store
    = (Ok [transformWallpaperUrls Example.buildImageUrl
             (Example.item "m4a" "/mobile/m4a.jpg")], st').
Proof.
  exact (loadCategory_decode_failure Example.SERIES_CONFIG Example.buildImageUrl
           Example.fetch Example.isWorkerAvailable Example.decodeData
           Example.parsePayload Example.workerPayload "mobile" "m4.json" initial_store
           (mkSeriesConfig "/data/mobile/index.json" "/data/mobile" "/data/mobile.json")
           (mkResponse true 200
              (inr (Example.encoded_doc "garbage"
                      (Some [Example.item "m4a" "/mobile/m4a.jpg"]))))
           (Example.encoded_doc "garbage" (Some [Example.item "m4a" "/mobile/m4a.jpg"]))
           eq_refl eq_refl eq_refl eq_refl eq_refl eq_refl
           (fun st => ex_intro _ _ (ex_intro _ _ eq_refl))).
Defined.

(** C9 as stated fails.  The category document is a JSON object whose
    blob cannot be decoded and whose [wallpapers] property is the string
    [oops]: [loadCategory] rejects. *)
Lemma loadCategory_decode_failure_counterexample :
  let load :=
    loadCategory Example.SERIES_CONFIG Example.buildImageUrl Example.malformed
      Example.isWorkerAvailable Example.decodeData Example.parsePayload
      Example.workerPayload "desktop" "a.json" in
  Example.decodeData (JStr "garbage") = inl (Error "Invalid encoded data")
  /\ (load initial_store).1 = Throw (TypeError "wallpaperList.map is not a function")
  /\ categoryCache (load initial_store).2 = ∅.
Proof. intros load. split_and!; reflexivity. Qed.

(** Without an argument, or with the empty string, [clearCache] empties both
    caches for every series. *)
Lemma clearCache_empty_id :
  seriesIndexCache (clearCache (Some "") Example.two_series_store) = ∅
  /\ categoryCache (clearCache (Some "") Example.two_series_store) = ∅
  /\ clearCache None Example.two_series_store = clearCache (Some "") Example.two_series_store.
Proof. split_and!; reflexivity. Qed.

(** The prefix test of [clearCache] cannot tell a series id apart from a
    longer id that extends it with a colon: both own the key below. *)
Lemma cacheKey_colon_collision :
  cacheKey "a" "b:x.json" = cacheKey "a:b" "x.json".
Proof. reflexivity. Qed.

(** The data set respects the shape of a wallpaper. *)
Lemma example_item_well_typed (id path : string) : well_typed (Example.item id path).
Proof.
  intros k. unfold optional_string, is_string.
  destruct k; vm_compute; split; eauto.
Qed.

Lemma example_fetch_well_typed (url : string) (response : Response) (data : Document)
    (l : list Item) :
  Example.fetch url = inr response -> json response = inr data ->
  doc_wallpapers data = Some l -> Forall well_typed l.
Proof.
  unfold Example.fetch. intros Hf Hj Hl.
  repeat match type of Hf with
         | (if ?b then _ else _) = _ => destruct b
         end.
  all: unfold Example.ok200, Example.not_found in Hf; injection Hf as <-.
  all: cbn [json] in Hj; first [discriminate Hj | injection Hj as <-].
  all: unfold Example.plain, Example.manifest, Example.encoded_doc in Hl.
  all: unfold doc_wallpapers in Hl; cbn in Hl; first [discriminate Hl | injection Hl as <-].
  all: repeat (apply Forall_cons_2; [apply example_item_well_typed|]).
  all: apply Forall_nil_2.
Qed.

Lemma example_parse_well_typed (jsonStr : string) (decoded : Decoded) :
  Example.parsePayload jsonStr = inr decoded -> decoded_well_typed decoded.
Proof.
  unfold Example.parsePayload. intros H.
  destruct (String.eqb jsonStr "[m2a]"); [|discriminate H].
  injection H as <-. unfold decoded_well_typed. intros l Hl.
  cbn in Hl. injection Hl as <-.
  apply Forall_cons_2; [apply example_item_well_typed | apply Forall_nil_2].
Qed.

Lemma loadCategory_resolved_witness :
  Forall resolved
    (transformWallpaperUrls Example.buildImageUrl
       <$> [Example.item "m1a" "/mobile/m1a.jpg"; Example.item "m1b" "/mobile/m1b.jpg"])
  /\ (forall key cached,
        categoryCache (Example.loadCategory "mobile" "m1.json" initial_store).2 !! key
          = Some cached ->
        Forall resolved cached).
Proof.
  apply (loadCategory_resolved Example.SERIES_CONFIG Example.buildImageUrl Example.fetch
           Example.isWorkerAvailable Example.decodeData Example.parsePayload
           Example.workerPayload "mobile" "m1.json" initial_store).
  - intros s. eexists. reflexivity.
  - exact example_fetch_well_typed.
  - exact example_parse_well_typed.
  - intros encoded decoded H. discriminate H.
  - intros key cached H. discriminate H.
  - vm_refl.
Defined.

(** A wallpaper whose [url] is not a string escapes the guarantee: the
    value goes through [transformWallpaperUrls] as it is. *)
Lemma transformWallpaperUrls_ill_typed :
  prop (transformWallpaperUrls Example.buildImageUrl {[ "url" := JNum 5 ]}) "url" = JNum 5.
Proof. reflexivity. Qed.
